(** * springmemo: the note body codec and the autosave handlers of notegui.py

  A shallow embedding of the working parts of [notegui.py]:
  - the two regular expressions of [Note] / [NormalNote] and the
    backtracking matcher that Python's [re] runs them with,
  - [NormalNote.SerializeBody] and [NormalNote.GetBodyFromSource],
  - the event handlers of [Note], [NormalNote] and [MemoList.MemoNode]
    that touch the modified flag, the timer and the memo.

  Text is modelled as [string], a sequence of 8-bit characters as a
  Python 2 [str] is. *)

From Equations Require Import Equations.
From Stdlib Require Import Strings.String Strings.Ascii List Arith NArith Bool Lia.
From Stdlib Require Import ZArith.
Import ListNotations.

Local Open Scope list_scope.
Local Open Scope string_scope.

(** ** Characters *)

Module Chars.

(** The double quote and the line feed, by code. *)
Definition dquote : ascii := ascii_of_nat 34.
Definition newline : ascii := ascii_of_nat 10.

(** [lower]: the case folding [re.I | re.U] applies to a character before
    comparing it, on the code points below 256: A-Z and the Latin-1
    capitals 192-222 (but the multiplication sign 215) move up by 32. *)
Definition lower (c : ascii) : ascii :=
  let n := N_of_ascii c in
  if ((65 <=? n) && (n <=? 90))%N then ascii_of_N (n + 32)
  else if ((192 <=? n) && (n <=? 222) && negb (n =? 215))%N
       then ascii_of_N (n + 32)
  else c.

End Chars.
Import Chars.

(** ** Regular expressions *)

Module Re.

(** The character tests the two patterns use. *)
Inductive cls : Type :=
| CLit (c : ascii)     (* a literal character, compared ignoring case *)
| CNot (c : ascii)     (* [^c] *)
| CAny.                (* . under re.S: any character, newline included *)

Definition cls_match (k : cls) (c : ascii) : bool :=
  match k with
  | CLit p => Ascii.eqb (lower c) (lower p)
  | CNot p => negb (Ascii.eqb (lower c) (lower p))
  | CAny => true
  end.

(** A pattern is a sequence of items: one character, or a lazy star
    [k*?] over one character test. The flag of a star says whether it is
    the body of the capture group (both patterns have exactly one group,
    and it wraps exactly one lazy star). *)
Inductive item : Type :=
| Chr (k : cls)
| Star (capture : bool) (k : cls).

Definition regex := list item.

Fixpoint lits (p : string) : regex :=
  match p with
  | EmptyString => []
  | String c p' => Chr (CLit c) :: lits p'
  end.

(** [match_at r s]: try to match [r] at the start of [s], the way the
    backtracking engine does; the answer is the text of group 1 and the
    text left after the match. A lazy star first tries the rest of the
    pattern, and takes one more character only when that fails. *)
Fixpoint match_at (r : regex) : string -> option (string * string) :=
  match r with
  | [] => fun s => Some (EmptyString, s)
  | Chr k :: r' =>
      fun s =>
        match s with
        | EmptyString => None
        | String c s' => if cls_match k c then match_at r' s' else None
        end
  | Star cap k :: r' =>
      fix star (s : string) : option (string * string) :=
        match match_at r' s with
        | Some res => Some res
        | None =>
            match s with
            | EmptyString => None
            | String c s' =>
                if cls_match k c then
                  match star s' with
                  | Some (g, rest) => Some (if cap then String c g else g, rest)
                  | None => None
                  end
                else None
            end
        end
  end.

(** [search r s]: the leftmost match, as [re.search] finds it. *)
Fixpoint search (r : regex) (s : string) : option (string * string) :=
  match match_at r s with
  | Some res => Some res
  | None =>
      match s with
      | EmptyString => None
      | String _ s' => search r s'
      end
  end.

(** What the scanner behind [findall] and [sub] yields, left to right:
    a character no match covers, or a match (with its group 1). *)
Inductive piece : Type :=
| Plain (c : ascii)
| Matched (g : string).

Definition inspect {A : Type} (a : A) : {b : A | a = b} := exist _ a eq_refl.

(** [scan r s]: the successive non-overlapping matches of [r] in [s].
    A match is taken only when it consumes text; both patterns of the
    program begin with a literal character, so theirs always do
    (see [match_at_consumes]). *)
Equations? scan (r : regex) (s : string) : list piece by wf (String.length s) lt :=
  scan r EmptyString := [];
  scan r (String c s') with inspect (match_at r (String c s')) := {
    | exist _ (Some (g, rest)) _
        with inspect (Nat.ltb (String.length rest) (S (String.length s'))) := {
        | exist _ true _ := Matched g :: scan r rest
        | exist _ false _ := Plain c :: scan r s' }
    | exist _ None _ := Plain c :: scan r s' }.
Proof.
  all: try (simpl; lia).
  apply Nat.ltb_lt. assumption.
Qed.

(** [pattern.findall(s)] for a pattern with one group: the group of every
    match. *)
Definition findall (r : regex) (s : string) : list string :=
  flat_map (fun p => match p with Plain _ => [] | Matched g => [g] end)
           (scan r s).

(** [pattern.sub('\g<1>\n', s)]: every match replaced by its group 1
    followed by a line feed, the rest copied. *)
Definition sub_group1_nl (r : regex) (s : string) : string :=
  fold_right
    (fun p acc => match p with
                  | Plain c => String c acc
                  | Matched g => g ++ String newline acc
                  end)
    EmptyString (scan r s).

End Re.
Import Re.

(** ** Python results *)

Module Py.

(** The exceptions the modelled code can end with: the [IndexError] of
    indexing an empty list, and whatever a call into the memo object
    raises. *)
Inductive exn : Type :=
| IndexError
| MemoError.

Inductive result (A : Type) : Type :=
| Ok (a : A)
| Raise (e : exn).
Arguments Ok {A} a.
Arguments Raise {A} e.

Definition bind {A B : Type} (m : result A) (f : A -> result B) : result B :=
  match m with
  | Ok a => f a
  | Raise e => Raise e
  end.

(** [xs[0]] *)
Definition index0 {A : Type} (xs : list A) : result A :=
  match xs with
  | [] => Raise IndexError
  | x :: _ => Ok x
  end.

(** [s.split('\n')]: the pieces between line feeds; never empty, the
    empty text gives one empty piece. *)
Fixpoint split_nl (s : string) : list string :=
  match s with
  | EmptyString => [EmptyString]
  | String c s' =>
      if Ascii.eqb c newline then EmptyString :: split_nl s'
      else match split_nl s' with
           | [] => [String c EmptyString]
           | l :: ls => String c l :: ls
           end
  end.

End Py.
Import Py.

(** ** The body codec of NormalNote *)

Module Codec.

(** [Note.re_get_body]:
    <div[^>]*?id="body"[^>]*?>(.*?)</div>  with re.M|re.I|re.U|re.S *)
Definition re_get_body : regex :=
  (lits "<div" ++ [Star false (CNot ">")]
    ++ lits "id=" ++ [Chr (CLit dquote)] ++ lits "body" ++ [Chr (CLit dquote)]
    ++ [Star false (CNot ">")] ++ lits ">"
    ++ [Star true CAny] ++ lits "</div>")%list.

(** [re_replace1] of [GetBodyFromSource]:
    <p>(.*?)</p>  with re.M|re.I|re.U|re.S *)
Definition re_replace1 : regex :=
  (lits "<p>" ++ [Star true CAny] ++ lits "</p>")%list.

(** [NormalNote.GetBodyFromSource(source)] *)
Definition GetBodyFromSource (source : string) : result string :=
  bind (index0 (findall re_get_body source)) (fun body =>
  let body2 := sub_group1_nl re_replace1 body in
  Ok body2).

(** The opening tag of the container [SerializeBody] writes. *)
Definition div_open : string :=
  "<div id=" ++ String dquote ("body" ++ String dquote ">").

(** [NormalNote.SerializeBody()], as a function of what [GetBody()]
    returns (the value of the text control). *)
Definition SerializeBody (str : string) : string :=
  let rval :=
    fold_left (fun rval str2 => rval ++ (("<p>" ++ str2) ++ "</p>"))
              (split_nl str) EmptyString in
  let body := (div_open ++ rval) ++ "</div>" in
  body.

End Codec.
Import Codec.

(** ** The note window, the list node and the memo they share *)

Module Gui.

Definition DEFAULT_TIMER_TIME : nat := 5000.

(** The calls the handlers make on the memo object ([self.memo]), whose
    class is not part of this file: they are recorded in the order made. *)
Inductive call : Type :=
| save_memo
| close_memo
| set_title (s : string).

(** What one call of [memo.save_memo()] does, seen from its caller: it
    returns (a value every caller drops; [ok] says whether the upload
    went through) or it raises. *)
Inductive save_outcome : Type :=
| SaveReturns (ok : bool)
| SaveRaises.

(** The two event types [OnButtonModify] is bound to. *)
Inductive evt_type : Type :=
| EVT_BUTTON
| EVT_TEXT_ENTER.

(** The state the handlers read and write. *)
Record World : Type := mkWorld {
  (* the memo *)
  memo_has_page : bool;          (* memo.page is not None *)
  memo_source : string;          (* memo.page.source *)
  memo_is_open : bool;           (* memo.header.is_open *)
  memo_calls : list call;        (* calls received so far *)
  (* Note / NormalNote *)
  body : option string;          (* self.body *)
  is_modified : bool;            (* self.is_modified *)
  timer : option nat;            (* self.timer: running with this interval *)
  shown : bool;                  (* the frame, after Show(..) *)
  button_status : string;        (* bitmap of self.button_status *)
  text : string;                 (* value of self.text *)
  (* MemoList.MemoNode *)
  on_modifying : bool;           (* self.on_modifying *)
  text_title : string;           (* value of self.text_title *)
  text_title_editable : bool;
  button_modify : string;        (* label of self.button_modify *)
  button_isopen : string         (* label of self.button_isopen *)
}.

Definition with_memo_is_open (b : bool) (w : World) : World :=
  mkWorld w.(memo_has_page) w.(memo_source) b w.(memo_calls)
          w.(body) w.(is_modified) w.(timer) w.(shown) w.(button_status) w.(text)
          w.(on_modifying) w.(text_title) w.(text_title_editable)
          w.(button_modify) w.(button_isopen).

Definition with_memo_calls (cs : list call) (w : World) : World :=
  mkWorld w.(memo_has_page) w.(memo_source) w.(memo_is_open) cs
          w.(body) w.(is_modified) w.(timer) w.(shown) w.(button_status) w.(text)
          w.(on_modifying) w.(text_title) w.(text_title_editable)
          w.(button_modify) w.(button_isopen).

Definition with_body (b : option string) (w : World) : World :=
  mkWorld w.(memo_has_page) w.(memo_source) w.(memo_is_open) w.(memo_calls)
          b w.(is_modified) w.(timer) w.(shown) w.(button_status) w.(text)
          w.(on_modifying) w.(text_title) w.(text_title_editable)
          w.(button_modify) w.(button_isopen).

Definition with_is_modified (b : bool) (w : World) : World :=
  mkWorld w.(memo_has_page) w.(memo_source) w.(memo_is_open) w.(memo_calls)
          w.(body) b w.(timer) w.(shown) w.(button_status) w.(text)
          w.(on_modifying) w.(text_title) w.(text_title_editable)
          w.(button_modify) w.(button_isopen).

Definition with_timer (t : option nat) (w : World) : World :=
  mkWorld w.(memo_has_page) w.(memo_source) w.(memo_is_open) w.(memo_calls)
          w.(body) w.(is_modified) t w.(shown) w.(button_status) w.(text)
          w.(on_modifying) w.(text_title) w.(text_title_editable)
          w.(button_modify) w.(button_isopen).

Definition with_shown (b : bool) (w : World) : World :=
  mkWorld w.(memo_has_page) w.(memo_source) w.(memo_is_open) w.(memo_calls)
          w.(body) w.(is_modified) w.(timer) b w.(button_status) w.(text)
          w.(on_modifying) w.(text_title) w.(text_title_editable)
          w.(button_modify) w.(button_isopen).

Definition with_button_status (png : string) (w : World) : World :=
  mkWorld w.(memo_has_page) w.(memo_source) w.(memo_is_open) w.(memo_calls)
          w.(body) w.(is_modified) w.(timer) w.(shown) png w.(text)
          w.(on_modifying) w.(text_title) w.(text_title_editable)
          w.(button_modify) w.(button_isopen).

Definition with_text (s : string) (w : World) : World :=
  mkWorld w.(memo_has_page) w.(memo_source) w.(memo_is_open) w.(memo_calls)
          w.(body) w.(is_modified) w.(timer) w.(shown) w.(button_status) s
          w.(on_modifying) w.(text_title) w.(text_title_editable)
          w.(button_modify) w.(button_isopen).

Definition with_on_modifying (b : bool) (w : World) : World :=
  mkWorld w.(memo_has_page) w.(memo_source) w.(memo_is_open) w.(memo_calls)
          w.(body) w.(is_modified) w.(timer) w.(shown) w.(button_status) w.(text)
          b w.(text_title) w.(text_title_editable)
          w.(button_modify) w.(button_isopen).

Definition with_text_title_editable (b : bool) (w : World) : World :=
  mkWorld w.(memo_has_page) w.(memo_source) w.(memo_is_open) w.(memo_calls)
          w.(body) w.(is_modified) w.(timer) w.(shown) w.(button_status) w.(text)
          w.(on_modifying) w.(text_title) b
          w.(button_modify) w.(button_isopen).

Definition with_button_modify (l : string) (w : World) : World :=
  mkWorld w.(memo_has_page) w.(memo_source) w.(memo_is_open) w.(memo_calls)
          w.(body) w.(is_modified) w.(timer) w.(shown) w.(button_status) w.(text)
          w.(on_modifying) w.(text_title) w.(text_title_editable)
          l w.(button_isopen).

Definition with_button_isopen (l : string) (w : World) : World :=
  mkWorld w.(memo_has_page) w.(memo_source) w.(memo_is_open) w.(memo_calls)
          w.(body) w.(is_modified) w.(timer) w.(shown) w.(button_status) w.(text)
          w.(on_modifying) w.(text_title) w.(text_title_editable)
          w.(button_modify) l.

(** *** Handlers as state transformers that may raise

    A handler that raises keeps the writes it made before. *)
Definition M (A : Type) : Type := World -> result A * World.

Definition ret {A : Type} (a : A) : M A := fun w => (Ok a, w).

Definition then_ {A B : Type} (m : M A) (k : A -> M B) : M B :=
  fun w => match m w with
           | (Ok a, w') => k a w'
           | (Raise e, w') => (Raise e, w')
           end.

Definition raise {A : Type} (e : exn) : M A := fun w => (Raise e, w).
Definition read {A : Type} (f : World -> A) : M A := fun w => (Ok (f w), w).
Definition write (f : World -> World) : M unit := fun w => (Ok tt, f w).

Notation "x <- m ;; k" := (then_ m (fun x => k))
  (at level 61, m at next level, right associativity).
Notation "m ;; k" := (then_ m (fun _ => k))
  (at level 61, right associativity).

(** A call on the memo object is appended to what it has received. *)
Definition memo_call (c : call) : M unit :=
  write (fun w => with_memo_calls (w.(memo_calls) ++ [c])%list w).

(** [self.memo.save_memo()] with the outcome of this call. *)
Definition memo_save_memo (o : save_outcome) : M unit :=
  memo_call save_memo ;;
  match o with
  | SaveReturns _ => ret tt
  | SaveRaises => raise MemoError
  end.

(** *** Note *)

Definition StartTimer (max_time : nat) : M unit :=
  running <- read timer ;;
  (match running with
   | Some _ => write (with_timer None)
   | None => ret tt
   end) ;;
  write (with_timer (Some max_time)).

Definition StopTimer : M unit := write (with_timer None).

Definition SetStatusModified : M unit :=
  write (with_is_modified true) ;;
  write (with_button_status "./icons2/blue1.png").

Definition SetStatusRecent : M unit :=
  write (with_is_modified false) ;;
  write (with_button_status "./icons2/green1.png").

Definition UpdateNote (o : save_outcome) : M unit := memo_save_memo o.

Definition OnTimerEvent (o : save_outcome) : M unit :=
  StopTimer ;;
  UpdateNote o ;;
  SetStatusRecent.

Definition OnStatus (o : save_outcome) : M unit :=
  m <- read is_modified ;;
  if m then
    StopTimer ;;
    UpdateNote o ;;
    SetStatusRecent
  else ret tt.

Definition CloseNote : M unit :=
  write (with_shown false) ;;
  memo_call close_memo.

Definition OnClose : M unit := CloseNote.

Definition CheckShowNote (val : option bool) : M unit :=
  match val with
  | Some v => write (with_shown v)
  | None => o <- read memo_is_open ;; write (with_shown o)
  end.

(** *** NormalNote *)

Definition SetBody (str : string) : M unit := write (with_text str).

Definition initData : M unit :=
  p <- read memo_has_page ;;
  if p then
    src <- read memo_source ;;
    match GetBodyFromSource src with
    | Ok b => write (with_body (Some b)) ;; SetBody b
    | Raise e => raise e
    end
  else ret tt.

Definition OnChange : M unit :=
  SetStatusModified ;;
  StartTimer DEFAULT_TIMER_TIME.

(** The user changes the text control to [s]: the control takes the value
    and raises EVT_TEXT, which [SetChangeState] has bound to [OnChange]. *)
Definition user_edits (s : string) : M unit :=
  write (with_text s) ;;
  OnChange.

(** *** MemoList.MemoNode *)

Definition CheckIsOpen : M unit :=
  o <- read memo_is_open ;;
  if o then write (with_button_isopen "O")
  else write (with_button_isopen "X").

Definition is_text_enter (evt : evt_type) : bool :=
  match evt with
  | EVT_TEXT_ENTER => true
  | EVT_BUTTON => false
  end.

Definition OnButtonModify (evt : evt_type) (o : save_outcome) : M unit :=
  m <- read on_modifying ;;
  if is_text_enter evt && negb m then ret tt
  else if negb m then
    write (with_on_modifying true) ;;
    write (with_text_title_editable true) ;;
    write (with_button_modify "저장")
  else
    t <- read text_title ;;
    if Nat.ltb 0 (String.length t) then
      memo_call (set_title t) ;;
      memo_save_memo o ;;
      write (with_button_modify "M") ;;
      write (with_on_modifying false) ;;
      write (with_text_title_editable false)
    else ret tt.

Definition OnButtonIsOpen (o : save_outcome) : M unit :=
  b <- read memo_is_open ;;
  write (with_memo_is_open (negb b)) ;;
  b' <- read memo_is_open ;;
  CheckShowNote (Some b') ;;
  memo_save_memo o ;;
  CheckIsOpen.

End Gui.
Import Gui.

(** ** Events reaching the note and its list node *)

Module Events.

Definition with_text_title (s : string) (w : World) : World :=
  mkWorld w.(memo_has_page) w.(memo_source) w.(memo_is_open) w.(memo_calls)
          w.(body) w.(is_modified) w.(timer) w.(shown) w.(button_status) w.(text)
          w.(on_modifying) s w.(text_title_editable)
          w.(button_modify) w.(button_isopen).

(** What the bindings of [Note.initGUI], [NormalNote.SetChangeState] and
    [MemoNode.SetEvent] route to a handler, with the outcome of the save
    call the handler may make. *)
Inductive event : Type :=
| TypesText (s : string)             (* EVT_TEXT of self.text *)
| TimerExpires (o : save_outcome)    (* EVT_TIMER of self.timer *)
| ClicksStatus (o : save_outcome)    (* button_status *)
| ClicksClose                        (* button_close *)
| ClicksModify (o : save_outcome)    (* button_modify *)
| EntersTitle (o : save_outcome)     (* EVT_TEXT_ENTER of text_title *)
| TypesTitle (s : string)            (* typing into text_title *)
| ClicksIsOpen (o : save_outcome)    (* button_isopen *)
| ClicksDelete.                      (* button_delete *)

(** [MemoNode.OnButtonDelete] only prints. *)
Definition OnButtonDelete : M unit := ret tt.

(** The timer notifies only while it runs; the title field takes typed
    text only while it is editable. *)
Definition handler (e : event) : M unit :=
  match e with
  | TypesText s => user_edits s
  | TimerExpires o =>
      running <- read timer ;;
      match running with
      | Some _ => OnTimerEvent o
      | None => ret tt
      end
  | ClicksStatus o => OnStatus o
  | ClicksClose => OnClose
  | ClicksModify o => OnButtonModify EVT_BUTTON o
  | EntersTitle o => OnButtonModify EVT_TEXT_ENTER o
  | TypesTitle s =>
      editable <- read text_title_editable ;;
      if editable then write (with_text_title s) else ret tt
  | ClicksIsOpen o => OnButtonIsOpen o
  | ClicksDelete => OnButtonDelete
  end.

(** An exception that leaves a handler is reported and the event loop goes
    on with the state the handler left. *)
Definition deliver (w : World) (e : event) : World := snd (handler e w).

Definition run (es : list event) (w : World) : World := fold_left deliver es w.

End Events.
Import Events.

(** ** The dialogs of the tray icon *)

Module Dialogs.

Local Open Scope Z_scope.

(** How a modal dialog ended. *)
Inductive modal_code : Type :=
| ID_OK
| ID_CANCEL.

(** *** SelectNoteDlg *)

Record SelectNoteDlg : Type := mkSelect {
  radio_type : Z;                  (* selection of the three-choice radio box *)
  select_title : string;           (* value of self.text_title *)
  selected_type : Z;               (* self.selected_type *)
  select_ended : option modal_code (* set by EndModal *)
}.

(** The dialog as [__init__] leaves it. *)
Definition new_SelectNoteDlg : SelectNoteDlg := mkSelect 0 EmptyString 0 None.

Definition OnRadioChanged (d : SelectNoteDlg) : SelectNoteDlg :=
  mkSelect d.(radio_type) d.(select_title) d.(radio_type) d.(select_ended).

Definition EndModal (c : modal_code) (d : SelectNoteDlg) : SelectNoteDlg :=
  mkSelect d.(radio_type) d.(select_title) d.(selected_type) (Some c).

Definition OnOk (d : SelectNoteDlg) : SelectNoteDlg :=
  if Nat.ltb 0 (String.length d.(select_title)) then EndModal ID_OK d else d.

Definition OnCancel (d : SelectNoteDlg) : SelectNoteDlg := EndModal ID_CANCEL d.

Definition GetSelectedType (d : SelectNoteDlg) : Z :=
  if d.(selected_type) =? 0 then 1        (* MEMO_TYPE_NORMAL *)
  else if d.(selected_type) =? 1 then 2   (* MEMO_TYPE_TODO *)
  else if d.(selected_type) =? 2 then 3   (* MEMO_TYPE_SCHEDULE *)
  else 0.

(** What the user does while the dialog is up. *)
Inductive select_action : Type :=
| PicksRadio (i : Z)       (* one of the three choices, 0 to 2 *)
| TypesNewTitle (s : string)
| ClicksOk
| ClicksCancel.

Definition select_step (d : SelectNoteDlg) (a : select_action) : SelectNoteDlg :=
  match a with
  | PicksRadio i =>
      if (0 <=? i) && (i <? 3)
      then OnRadioChanged (mkSelect i d.(select_title) d.(selected_type) d.(select_ended))
      else d
  | TypesNewTitle s => mkSelect d.(radio_type) s d.(selected_type) d.(select_ended)
  | ClicksOk => OnOk d
  | ClicksCancel => OnCancel d
  end.

(** [ShowModal()]: the actions are handled until one calls [EndModal];
    when they run out first the dialog is still up and the call has not
    returned. *)
Fixpoint select_ShowModal (script : list select_action) (d : SelectNoteDlg)
  : option (modal_code * SelectNoteDlg) :=
  match d.(select_ended) with
  | Some c => Some (c, d)
  | None =>
      match script with
      | [] => None
      | a :: script' => select_ShowModal script' (select_step d a)
      end
  end.

(** *** NoteTaskBar *)

(** [controller.create_new_memo(type, title, sub=True)] *)
Inductive controller_call : Type :=
| create_new_memo (type : Z) (title : string).

Record NoteTaskBar : Type := mkTaskBar {
  select_memo : option SelectNoteDlg;      (* self.select_memo *)
  controller_calls : list controller_call  (* calls on self.controller *)
}.

(** [NoteTaskBar.OnNew], with what the user does in the dialog it opens. *)
Definition OnNew (script : list select_action) (tb : NoteTaskBar)
  : option NoteTaskBar :=
  match tb.(select_memo) with
  | None =>
      match select_ShowModal script new_SelectNoteDlg with
      | None => None
      | Some (rval, d) =>
          let calls :=
            match rval with
            | ID_OK =>
                let type := GetSelectedType d in
                let title := d.(select_title) in
                (tb.(controller_calls) ++ [create_new_memo type title])%list
            | ID_CANCEL => tb.(controller_calls)
            end in
          Some (mkTaskBar None calls)
      end
  | Some _ => Some tb
  end.

(** *** AuthDialog *)

Record AuthDialog : Type := mkAuth {
  auth_url : string;
  is_auth_clicked : bool;
  is_auth_save : bool;
  checkbox_issave : bool;        (* value of the check box *)
  button_ok_enabled : bool;
  opened : list string;          (* urls handed to webbrowser.open_new *)
  auth_ended : option modal_code
}.

Definition new_AuthDialog (url : string) : AuthDialog :=
  mkAuth url false false false false [] None.

Definition OnGoAuth (d : AuthDialog) : AuthDialog :=
  mkAuth d.(auth_url) true d.(is_auth_save) d.(checkbox_issave) true
         (d.(opened) ++ [d.(auth_url)])%list d.(auth_ended).

Definition auth_EndModal (c : modal_code) (d : AuthDialog) : AuthDialog :=
  mkAuth d.(auth_url) d.(is_auth_clicked) d.(is_auth_save) d.(checkbox_issave)
         d.(button_ok_enabled) d.(opened) (Some c).

Definition auth_OnOk (d : AuthDialog) : AuthDialog :=
  if d.(is_auth_clicked) then auth_EndModal ID_OK d else d.

Definition auth_OnQuit (d : AuthDialog) : AuthDialog := auth_EndModal ID_CANCEL d.

Definition OnCheck (d : AuthDialog) : AuthDialog :=
  mkAuth d.(auth_url) d.(is_auth_clicked) d.(checkbox_issave) d.(checkbox_issave)
         d.(button_ok_enabled) d.(opened) d.(auth_ended).

Inductive auth_action : Type :=
| ClicksGoAuth
| ClicksNext          (* button_ok; delivered even while the button is disabled *)
| ClicksQuit
| Checks (b : bool).  (* the check box set to b *)

Definition auth_step (d : AuthDialog) (a : auth_action) : AuthDialog :=
  match a with
  | ClicksGoAuth => OnGoAuth d
  | ClicksNext => auth_OnOk d
  | ClicksQuit => auth_OnQuit d
  | Checks b =>
      OnCheck (mkAuth d.(auth_url) d.(is_auth_clicked) d.(is_auth_save) b
                      d.(button_ok_enabled) d.(opened) d.(auth_ended))
  end.

Fixpoint auth_ShowModal (script : list auth_action) (d : AuthDialog)
  : option (modal_code * AuthDialog) :=
  match d.(auth_ended) with
  | Some c => Some (c, d)
  | None =>
      match script with
      | [] => None
      | a :: script' => auth_ShowModal script' (auth_step d a)
      end
  end.

End Dialogs.
Import Dialogs.

(** ** MovePanel: dragging the frame *)

Module Move.

Local Open Scope Z_scope.

(** A [wx.Point]. *)
Definition Point : Type := (Z * Z)%type.

Record MovePanel : Type := mkMove {
  left_down : bool;
  delta : option Point;     (* self.delta, an attribute only once assigned *)
  frame_position : Point    (* position of self.parentFrame *)
}.

(** The panel as [__init__] leaves it, in a frame at [origin]. *)
Definition new_MovePanel (origin : Point) : MovePanel := mkMove false None origin.

(** What a call of [self.CaptureMouse()] or [self.ReleaseMouse()] does. wx
    keeps the capture state: the call returns, or it fails an assertion
    (a release while the panel holds no capture, a capture wx refuses). *)
Inductive capture_outcome : Type :=
| CaptureReturns
| CaptureRaises.

(** The mouse events bound by [__init__]: a button event with the outcome
    of its capture call, and all of them but the release with the
    pointer's screen position
    ([self.ClientToScreen(evt.GetPosition())]). *)
Inductive mouse_event : Type :=
| LeftDown (c : capture_outcome) (pos : Point)
| LeftUp (c : capture_outcome)
| Motion (dragging : bool) (pos : Point).

(** How a handler ends: it returns, it stops at the failed assertion of its
    capture call, or it stops at a read of [self.delta] that no assignment
    preceded (an AttributeError). *)
Inductive mouse_result : Type :=
| Returned (p : MovePanel)
| AssertionFailed (p : MovePanel)
| DeltaUnassigned (p : MovePanel).

(** [self.parentFrame.Move(fp)]: wx moves with its default flag
    wx.SIZE_USE_EXISTING, under which a coordinate of -1 stands for the
    current one. *)
Definition frame_Move (fp current : Point) : Point :=
  (if fst fp =? -1 then fst current else fst fp,
   if snd fp =? -1 then snd current else snd fp).

Definition OnLeftDown (c : capture_outcome) (pos : Point) (p : MovePanel)
  : mouse_result :=
  match c with
  | CaptureRaises => AssertionFailed p
  | CaptureReturns =>
      let origin := p.(frame_position) in
      let dx := fst pos - fst origin in
      let dy := snd pos - snd origin in
      Returned (mkMove true (Some (dx, dy)) p.(frame_position))
  end.

Definition OnLeftUp (c : capture_outcome) (p : MovePanel) : mouse_result :=
  match c with
  | CaptureRaises => AssertionFailed p
  | CaptureReturns => Returned (mkMove false p.(delta) p.(frame_position))
  end.

Definition OnMouseMove (dragging : bool) (pos : Point) (p : MovePanel)
  : mouse_result :=
  if dragging && p.(left_down) then
    match p.(delta) with
    | None => DeltaUnassigned p
    | Some d =>
        let fp := (fst pos - fst d, snd pos - snd d) in
        Returned (mkMove p.(left_down) p.(delta) (frame_Move fp p.(frame_position)))
    end
  else Returned p.

Definition mouse_step (e : mouse_event) (p : MovePanel) : mouse_result :=
  match e with
  | LeftDown c pos => OnLeftDown c pos p
  | LeftUp c => OnLeftUp c p
  | Motion dragging pos => OnMouseMove dragging pos p
  end.

(** A run of mouse events. A failed assertion is reported and the run goes
    on with the state the handler left; the run is [None] as soon as a
    handler reads [self.delta] unassigned. *)
Fixpoint mouse_run (es : list mouse_event) (p : MovePanel) : option MovePanel :=
  match es with
  | [] => Some p
  | e :: es' =>
      match mouse_step e p with
      | Returned p' => mouse_run es' p'
      | AssertionFailed p' => mouse_run es' p'
      | DeltaUnassigned _ => None
      end
  end.

End Move.
Import Move.

(** ** Notions the statements use *)

Module Text.

(** One paragraph segment, and a run of them. *)
Definition paragraph (l : string) : string := "<p>" ++ l ++ "</p>".

Definition paragraphs (ls : list string) : string :=
  fold_right (fun l acc => paragraph l ++ acc) EmptyString ls.

(** The container [SerializeBody] writes around a body. *)
Definition container (b : string) : string := div_open ++ b ++ "</div>".

(** Every line followed by a line feed. *)
Definition lines_nl (ls : list string) : string :=
  fold_right (fun l acc => l ++ String newline acc) EmptyString ls.

(** The lines joined by single line feeds: the inverse of [split_nl]. *)
Fixpoint join_nl (ls : list string) : string :=
  match ls with
  | [] => EmptyString
  | [l] => l
  | l :: ls' => l ++ String newline (join_nl ls')
  end.

(** [mentions p t]: the literal [p] occurs in [t] in some letter case,
    which is how both patterns of the codec read their literals. *)
Definition mentions (p t : string) : bool :=
  match search (lits p) t with
  | Some _ => true
  | None => false
  end.

Fixpoint ends_with_newline (s : string) : bool :=
  match s with
  | EmptyString => false
  | String c EmptyString => Ascii.eqb c newline
  | String _ s' => ends_with_newline s'
  end.

(** Number of line feeds in a text. *)
Fixpoint count_nl (s : string) : nat :=
  match s with
  | EmptyString => 0
  | String c s' => (if Ascii.eqb c newline then 1 else 0) + count_nl s'
  end.

(** No character of [q] equals [c] once case is folded. *)
Fixpoint avoids (q : string) (c : ascii) : bool :=
  match q with
  | EmptyString => true
  | String a q' => negb (cls_match (CLit a) c) && avoids q' c
  end.

End Text.
Import Text.

(** ** Sample inputs *)

Module Samples.

Definition nl : string := String newline EmptyString.

(** The three lines a, (empty), b as one text. *)
Definition three_lines : string := join_nl ["a"; ""; "b"].

(** A source with a div but no container of id "body". *)
Definition no_body_source : string := "<div>no body here</div>".

(** A stored page as another client may have written it: more attributes
    on the container, capitals in the tag, text after it. *)
Definition styled_source : string :=
  "<DIV class=memo id=" ++ String dquote ("body" ++ String dquote
    " ><p>one</p><p>two</p></div><div>footer</div>").

(** A note just opened on an empty stored body: nothing modified, no
    timer running. *)
Definition clean_world : World :=
  mkWorld true (SerializeBody "") true []
          (Some nl) false None true "./icons2/green1.png" nl
          false "shopping" false "M" "O".

(** The same note after the user typed into it. *)
Definition dirty_world : World := snd (user_edits "draft" clean_world).

(** The list node in rename mode with the title field emptied, and with
    a new title typed. *)
Definition renaming_empty : World :=
  with_on_modifying true (mkWorld true (SerializeBody "") true []
          (Some nl) false None true "./icons2/green1.png" nl
          false "" true "저장" "O").

Definition renaming_groceries : World :=
  with_on_modifying true (mkWorld true (SerializeBody "") true []
          (Some nl) false None true "./icons2/green1.png" nl
          false "groceries" true "저장" "O").

End Samples.
Import Samples.

(** ** Further notions *)

Module More.

(** [n] line feeds. *)
Fixpoint newlines (n : nat) : string :=
  match n with
  | O => EmptyString
  | S n' => String newline (newlines n')
  end.

(** [n] times: store the text, then load it again as [initData] does. *)
Fixpoint reopen_cycles (n : nat) (t : string) : result string :=
  match n with
  | O => Ok t
  | S n' => bind (GetBodyFromSource (SerializeBody t)) (reopen_cycles n')
  end.

(** The paragraph tags in lower case or in capitals. *)
Definition p_open (capital : bool) : string := if capital then "<P>" else "<p>".
Definition p_close (capital : bool) : string := if capital then "</P>" else "</p>".

(** The text the last [TypesText] of a run of events carries. *)
Definition last_typed (es : list event) (before : string) : string :=
  fold_left (fun t e => match e with TypesText s => s | _ => t end) es before.

(** A running timer goes with a set modified flag. *)
Definition armed_is_modified (w : World) : Prop :=
  timer w <> None -> is_modified w = true.

(** The title field is editable exactly in rename mode. *)
Definition editable_while_renaming (w : World) : Prop :=
  text_title_editable w = on_modifying w.

(** The check box values of a run of dialog actions, the last one last. *)
Definition last_checked (script : list auth_action) : bool :=
  fold_left (fun b a => match a with Checks b' => b' | _ => b end) script false.

(** The list node in rename mode with a new title typed, over a note that
    has an edit pending. *)
Definition renaming_dirty : World := snd (user_edits "draft" renaming_groceries).

(** What holds of the select dialog while it is up and when it has ended:
    the stored selection is one of the three choices, and the dialog ended
    with OK only over a non-empty title. *)
Definition select_ok (d : SelectNoteDlg) : Prop :=
  (0 <= selected_type d < 3)%Z /\
  (select_ended d = Some ID_OK -> (0 < String.length (select_title d))%nat).

(** What holds of the authentication dialog throughout. *)
Definition auth_ok (url : string) (d : AuthDialog) : Prop :=
  auth_url d = url /\
  button_ok_enabled d = is_auth_clicked d /\
  (is_auth_clicked d = true -> opened d <> []) /\
  Forall (eq url) (opened d) /\
  (auth_ended d = Some ID_OK -> is_auth_clicked d = true).

End More.
Import More.

(** ** Facts about strings *)

Section StringFacts.

Lemma append_nil_r (s : string) : s ++ "" = s.
Proof. induction s as [|c s IH]; simpl; [reflexivity | now rewrite IH]. Qed.

Lemma append_assoc (a b c : string) : (a ++ b) ++ c = a ++ (b ++ c).
Proof. induction a as [|x a IH]; simpl; [reflexivity | now rewrite IH]. Qed.

Lemma length_append (a b : string) :
  String.length (a ++ b) = String.length a + String.length b.
Proof. induction a as [|x a IH]; simpl; [reflexivity | now rewrite IH]. Qed.

Lemma ends_with_newline_snoc (s : string) :
  ends_with_newline (s ++ String newline "") = true.
Proof.
  induction s as [|c s IH]; [reflexivity |].
  simpl. destruct (s ++ String newline "") eqn:E; [| exact IH].
  destruct s; discriminate.
Qed.

End StringFacts.

(** ** Facts about the matcher *)

Section MatcherFacts.

Lemma cls_match_lit_same (c : ascii) : cls_match (CLit c) c = true.
Proof. simpl. apply Ascii.eqb_refl. Qed.

Lemma match_at_chr (k : cls) (r : regex) (c : ascii) (s : string) :
  match_at (Chr k :: r) (String c s) =
  if cls_match k c then match_at r s else None.
Proof. reflexivity. Qed.

Lemma match_at_star (cap : bool) (k : cls) (r : regex) (s : string) :
  match_at (Star cap k :: r) s =
  match match_at r s with
  | Some res => Some res
  | None =>
      match s with
      | EmptyString => None
      | String c s' =>
          if cls_match k c then
            match match_at (Star cap k :: r) s' with
            | Some (g, rest) => Some (if cap then String c g else g, rest)
            | None => None
            end
          else None
      end
  end.
Proof. destruct s; reflexivity. Qed.

(** Literals match their own text. *)
Lemma match_at_lits_app (p : string) (r : regex) (s : string) :
  match_at (lits p ++ r)%list (p ++ s) = match_at r s.
Proof.
  induction p as [|c p IH]; [reflexivity |].
  cbn [lits List.app append]. rewrite match_at_chr, cls_match_lit_same. exact IH.
Qed.

Lemma match_at_lits_self (p s : string) :
  match_at (lits p) (p ++ s) = Some (EmptyString, s).
Proof.
  rewrite <- (app_nil_r (lits p)). apply match_at_lits_app.
Qed.

(** A literal that fails on [x] still fails when [x] is continued by a
    character none of the literal's characters matches. *)
Lemma match_at_lits_extend (q x : string) (c : ascii) (y : string) :
  avoids q c = true ->
  match_at (lits q) x = None ->
  match_at (lits q) (x ++ String c y) = None.
Proof.
  revert x. induction q as [|a q IH]; intros x Hav Hx; [discriminate |].
  cbn [avoids] in Hav. apply andb_true_iff in Hav as [Ha Hq].
  destruct x as [|b x]; cbn [lits append].
  - rewrite match_at_chr. apply negb_true_iff in Ha. now rewrite Ha.
  - cbn [lits] in Hx. rewrite match_at_chr in *.
    destruct (cls_match (CLit a) b); [| reflexivity]. now apply IH.
Qed.

Lemma match_at_lits_straddle (a : ascii) (q : string) (b : ascii) (x : string)
      (c : ascii) (y : string) :
  avoids q c = true ->
  match_at (lits (String a q)) (String b x) = None ->
  match_at (lits (String a q)) (String b x ++ String c y) = None.
Proof.
  intros Hav Hx. cbn [lits append] in *. rewrite match_at_chr in *.
  destruct (cls_match (CLit a) b); [| reflexivity].
  now apply match_at_lits_extend.
Qed.

Lemma search_cons (r : regex) (c : ascii) (s : string) :
  search r (String c s) =
  match match_at r (String c s) with
  | Some res => Some res
  | None => search r s
  end.
Proof. reflexivity. Qed.

Lemma search_none_cons (r : regex) (c : ascii) (s : string) :
  search r (String c s) = None ->
  match_at r (String c s) = None /\ search r s = None.
Proof.
  rewrite search_cons. destruct (match_at r (String c s)); [discriminate | auto].
Qed.

Lemma search_none_here (r : regex) (s : string) :
  search r s = None -> match_at r s = None.
Proof.
  destruct s; simpl; destruct (match_at r _); auto; discriminate.
Qed.

(** No occurrence in [l], none in what follows, and no occurrence across
    the seam. *)
Lemma search_none_app (a : ascii) (q l : string) (c : ascii) (y : string) :
  avoids q c = true ->
  search (lits (String a q)) l = None ->
  search (lits (String a q)) (String c y) = None ->
  search (lits (String a q)) (l ++ String c y) = None.
Proof.
  intros Hav Hl Hy. induction l as [|b l IH]; [exact Hy |].
  apply search_none_cons in Hl as [Hb Hl].
  change (String b l ++ String c y) with (String b (l ++ String c y)).
  rewrite search_cons.
  change (String b (l ++ String c y)) with (String b l ++ String c y).
  rewrite (match_at_lits_straddle a q b l c y Hav Hb). now apply IH.
Qed.

(** The lazy star of the capture group walks over [l] when the rest of the
    pattern matches at no point of it. *)
Lemma star_walks (r : regex) (l s : string) :
  (forall y x, l = y ++ x -> x <> EmptyString -> match_at r (x ++ s) = None) ->
  match_at (Star true CAny :: r) (l ++ s) =
  match match_at (Star true CAny :: r) s with
  | Some (g, rest) => Some (l ++ g, rest)
  | None => None
  end.
Proof.
  induction l as [|c l IH]; intros H.
  - simpl append. destruct (match_at _ s) as [[g rest]|]; reflexivity.
  - rewrite match_at_star.
    rewrite (H EmptyString (String c l) eq_refl) by discriminate.
    cbn [append cls_match]. rewrite IH.
    + destruct (match_at _ s) as [[g rest]|]; reflexivity.
    + intros y x -> Hx. apply (H (String c y) x); [reflexivity | exact Hx].
Qed.

Lemma search_none_suffix (r : regex) (y x : string) :
  search r (y ++ x) = None -> match_at r x = None.
Proof.
  induction y as [|c y IH]; intros H.
  - now apply search_none_here.
  - apply search_none_cons in H as [_ H]. now apply IH.
Qed.

(** The group of [(.*?)] followed by a closing literal that starts with a
    character found nowhere else in it: the text up to the first
    occurrence of the literal. *)
Lemma star_until_literal (a : ascii) (q l rest : string) :
  avoids q a = true ->
  search (lits (String a q)) l = None ->
  match_at (Star true CAny :: lits (String a q)) (l ++ String a q ++ rest)
  = Some (l, rest).
Proof.
  intros Hav Hl. rewrite star_walks.
  - rewrite match_at_star, match_at_lits_self. now rewrite append_nil_r.
  - intros y x -> Hx. destruct x as [|b x]; [congruence |].
    change (String a q ++ rest) with (String a (q ++ rest)).
    apply match_at_lits_straddle; [exact Hav |].
    now apply search_none_suffix with (y := y).
Qed.

(** A pattern that starts with a literal character consumes text. *)
Lemma match_at_suffix (r : regex) (s g rest : string) :
  match_at r s = Some (g, rest) -> String.length rest <= String.length s.
Proof.
  revert s g rest. induction r as [|[k|cap k] r IH]; intros s g rest.
  - simpl. intros [= _ <-]. lia.
  - destruct s as [|c s]; [discriminate |]. rewrite match_at_chr.
    destruct (cls_match k c); [| discriminate].
    intros H. apply IH in H. simpl. lia.
  - revert g rest. induction s as [|c s IHs]; intros g rest; rewrite match_at_star.
    + destruct (match_at r "") as [[g' rest']|] eqn:E; [| discriminate].
      intros [= _ <-]. now apply IH in E.
    + destruct (match_at r (String c s)) as [[g' rest']|] eqn:E.
      * intros [= _ <-]. now apply IH in E.
      * destruct (cls_match k c); [| discriminate].
        destruct (match_at (Star cap k :: r) s) as [[g' rest']|] eqn:E';
          [| discriminate].
        intros [= _ <-]. specialize (IHs g' rest' eq_refl). simpl. lia.
Qed.

Lemma match_at_consumes (k : cls) (r : regex) (s g rest : string) :
  match_at (Chr k :: r) s = Some (g, rest) ->
  String.length rest < String.length s.
Proof.
  destruct s as [|c s]; [discriminate |]. rewrite match_at_chr.
  destruct (cls_match k c); [| discriminate].
  intros H. apply match_at_suffix in H. simpl. lia.
Qed.

End MatcherFacts.

(** ** Facts about the scanner *)

Section ScanFacts.

Lemma scan_cons (r : regex) (c : ascii) (s : string) :
  scan r (String c s) =
  match match_at r (String c s) with
  | Some (g, rest) =>
      if Nat.ltb (String.length rest) (S (String.length s))
      then Matched g :: scan r rest
      else Plain c :: scan r s
  | None => Plain c :: scan r s
  end.
Proof.
  simp scan.
  destruct (inspect (match_at r (String c s))) as [[[g rest]|] e]; simpl.
  - rewrite e.
    destruct (inspect (Nat.ltb (String.length rest) (S (String.length s))))
      as [[|] e']; simpl; rewrite e'; reflexivity.
  - rewrite e. reflexivity.
Qed.

Lemma scan_nil (r : regex) : scan r EmptyString = [].
Proof. now simp scan. Qed.

(** A match of a pattern that starts with a literal is always taken. *)
Lemma scan_match (k : cls) (r : regex) (s g rest : string) :
  match_at (Chr k :: r) s = Some (g, rest) ->
  scan (Chr k :: r) s = Matched g :: scan (Chr k :: r) rest.
Proof.
  intros H. pose proof (match_at_consumes _ _ _ _ _ H) as Hlt.
  destruct s as [|c s]; [discriminate |].
  rewrite scan_cons, H.
  simpl in Hlt. apply Nat.ltb_lt in Hlt. now rewrite Hlt.
Qed.

(** No match anywhere: [findall] finds nothing. *)
Lemma findall_none (r : regex) (s : string) :
  search r s = None -> findall r s = [].
Proof.
  unfold findall. induction s as [|c s IH]; intros H.
  - now rewrite scan_nil.
  - apply search_none_cons in H as [Hc Hs].
    rewrite scan_cons, Hc. simpl. now apply IH.
Qed.

(** The first element of [findall] is the group of the leftmost match. *)
Lemma findall_first (k : cls) (r : regex) (s g rest : string) :
  search (Chr k :: r) s = Some (g, rest) ->
  index0 (findall (Chr k :: r) s) = Ok g.
Proof.
  unfold findall. induction s as [|c s IH]; intros H.
  - discriminate.
  - rewrite search_cons in H.
    destruct (match_at (Chr k :: r) (String c s)) as [[g' rest']|] eqn:E.
    + injection H as -> ->. rewrite (scan_match _ _ _ _ _ E). reflexivity.
    + rewrite scan_cons, E. simpl. now apply IH.
Qed.

End ScanFacts.

(** ** Facts about splitting into lines *)

Section SplitFacts.

Lemma split_nl_cons (c : ascii) (s : string) :
  split_nl (String c s) =
  if Ascii.eqb c newline then EmptyString :: split_nl s
  else match split_nl s with
       | [] => [String c EmptyString]
       | l :: ls => String c l :: ls
       end.
Proof. reflexivity. Qed.

Lemma split_nl_not_nil (s : string) : split_nl s <> [].
Proof.
  destruct s as [|c s]; [discriminate |].
  rewrite split_nl_cons.
  destruct (Ascii.eqb c newline); [discriminate |].
  destruct (split_nl s); discriminate.
Qed.

Lemma join_nl_cons (l : string) (ls : list string) :
  ls <> [] -> join_nl (l :: ls) = l ++ String newline (join_nl ls).
Proof. destruct ls; [congruence | reflexivity]. Qed.

(** Splitting loses nothing: joining the pieces gives the text back. *)
Lemma join_split (t : string) : join_nl (split_nl t) = t.
Proof.
  induction t as [|c t IH]; [reflexivity |].
  rewrite split_nl_cons. destruct (Ascii.eqb_spec c newline) as [-> | Hc].
  - rewrite join_nl_cons by apply split_nl_not_nil. now rewrite IH.
  - pose proof (split_nl_not_nil t) as Hne.
    destruct (split_nl t) as [|l ls]; [congruence |].
    destruct ls as [|l' ls].
    + simpl in *. now rewrite IH.
    + rewrite join_nl_cons by discriminate.
      rewrite join_nl_cons in IH by discriminate.
      cbn [append]. now rewrite IH.
Qed.

Lemma length_split (t : string) : List.length (split_nl t) = S (count_nl t).
Proof.
  induction t as [|c t IH]; [reflexivity |].
  rewrite split_nl_cons. cbn [count_nl].
  destruct (Ascii.eqb c newline).
  - simpl. now rewrite IH.
  - pose proof (split_nl_not_nil t) as Hne.
    destruct (split_nl t) as [|l ls]; [congruence |]. exact IH.
Qed.

(** Every piece followed by a line feed: the text and one more line feed. *)
Lemma lines_nl_split (t : string) :
  lines_nl (split_nl t) = t ++ String newline EmptyString.
Proof.
  induction t as [|c t IH]; [reflexivity |].
  rewrite split_nl_cons. destruct (Ascii.eqb_spec c newline) as [-> | Hc].
  - cbn [lines_nl fold_right]. fold (lines_nl (split_nl t)). now rewrite IH.
  - pose proof (split_nl_not_nil t) as Hne.
    destruct (split_nl t) as [|l ls]; [congruence |].
    cbn [lines_nl fold_right append] in *. now rewrite IH.
Qed.

Lemma lines_nl_cons (l : string) (ls : list string) :
  lines_nl (l :: ls) = l ++ String newline (lines_nl ls).
Proof. reflexivity. Qed.

Lemma lines_nl_join (ls : list string) :
  ls <> [] -> lines_nl ls = join_nl ls ++ String newline EmptyString.
Proof.
  induction ls as [|l ls IH]; [congruence |]. intros _.
  destruct ls as [|l' ls]; [reflexivity |].
  rewrite join_nl_cons by discriminate.
  rewrite lines_nl_cons, IH by discriminate.
  rewrite append_assoc. reflexivity.
Qed.

Lemma split_nl_snoc (t : string) :
  split_nl (t ++ String newline EmptyString)
  = (split_nl t ++ [EmptyString])%list.
Proof.
  induction t as [|c t IH]; [reflexivity |].
  cbn [append]. rewrite !split_nl_cons, IH.
  destruct (Ascii.eqb c newline); [reflexivity |].
  pose proof (split_nl_not_nil t) as Hne.
  destruct (split_nl t) as [|l ls]; [congruence | reflexivity].
Qed.

Lemma split_head_prefix (t l : string) (ls : list string) :
  split_nl t = l :: ls -> exists y, t = l ++ y.
Proof.
  revert l ls. induction t as [|c t IH]; intros l ls.
  - intros [= <- <-]. now exists EmptyString.
  - rewrite split_nl_cons. destruct (Ascii.eqb c newline).
    + intros [= <- _]. now eexists.
    + pose proof (split_nl_not_nil t) as Hne.
      destruct (split_nl t) as [|l' ls']; [congruence |].
      intros [= <- _]. destruct (IH l' ls' eq_refl) as [y ->].
      now exists y.
Qed.

Lemma match_at_lits_prefix_none (p x y : string) :
  match_at (lits p) (x ++ y) = None -> match_at (lits p) x = None.
Proof.
  revert x. induction p as [|a p IH]; intros x; [discriminate |].
  destruct x as [|b x]; [reflexivity |].
  cbn [lits append]. rewrite !match_at_chr.
  destruct (cls_match (CLit a) b); [apply IH | reflexivity].
Qed.

(** A literal found in no place of a text is found in none of its lines. *)
Lemma split_lines_free (p t : string) :
  search (lits p) t = None ->
  Forall (fun l => search (lits p) l = None) (split_nl t).
Proof.
  induction t as [|c t IH]; intros H.
  - constructor; [exact H | constructor].
  - apply search_none_cons in H as [Hc Ht]. specialize (IH Ht).
    rewrite split_nl_cons. destruct (Ascii.eqb c newline).
    + constructor; [| exact IH].
      simpl. now rewrite (match_at_lits_prefix_none p EmptyString _ Hc).
    + destruct (split_nl t) as [|l ls] eqn:E.
      * constructor; [| constructor]. simpl.
        rewrite (match_at_lits_prefix_none p (String c EmptyString) t Hc).
        now rewrite (match_at_lits_prefix_none p EmptyString _ Hc).
      * destruct (split_head_prefix _ _ _ E) as [y ->].
        inversion IH as [|? ? Hl Hls]; subst.
        constructor; [| exact Hls].
        rewrite search_cons.
        now rewrite (match_at_lits_prefix_none p (String c l) y Hc).
Qed.

End SplitFacts.

(** ** Facts about the codec *)

Section CodecFacts.

Lemma paragraphs_cons (l : string) (ls : list string) :
  paragraphs (l :: ls) = "<p>" ++ l ++ "</p>" ++ paragraphs ls.
Proof.
  unfold paragraphs at 1. cbn [fold_right]. fold (paragraphs ls).
  unfold paragraph. now rewrite !append_assoc.
Qed.

Lemma paragraphs_app (xs ys : list string) :
  paragraphs (xs ++ ys)%list = paragraphs xs ++ paragraphs ys.
Proof.
  induction xs as [|l xs IH]; [reflexivity |].
  cbn [List.app]. rewrite !paragraphs_cons, IH. now rewrite !append_assoc.
Qed.

(** The loop of [SerializeBody] builds the paragraphs of the lines. *)
Lemma serialize_loop (ls : list string) (acc : string) :
  fold_left (fun rval str2 => rval ++ (("<p>" ++ str2) ++ "</p>")) ls acc
  = acc ++ paragraphs ls.
Proof.
  revert acc. induction ls as [|l ls IH]; intros acc.
  - simpl. now rewrite append_nil_r.
  - cbn [fold_left]. rewrite IH, paragraphs_cons. now rewrite !append_assoc.
Qed.

Lemma SerializeBody_container (t : string) :
  SerializeBody t = container (paragraphs (split_nl t)).
Proof.
  unfold SerializeBody, container. rewrite serialize_loop.
  now rewrite append_assoc.
Qed.

(** [re_replace1] at the start of a paragraph whose line has no closing
    delimiter: the group is the line. *)
Lemma match_paragraph (l rest : string) :
  search (lits "</p>") l = None ->
  match_at re_replace1 ("<p>" ++ l ++ "</p>" ++ rest) = Some (l, rest).
Proof.
  intros Hl. unfold re_replace1. rewrite match_at_lits_app.
  now apply (star_until_literal "<" "/p>").
Qed.

Lemma scan_paragraph (l rest : string) :
  search (lits "</p>") l = None ->
  scan re_replace1 ("<p>" ++ l ++ "</p>" ++ rest)
  = Matched l :: scan re_replace1 rest.
Proof.
  intros Hl. apply (scan_match (CLit "<")). now apply match_paragraph.
Qed.

Lemma sub_paragraphs (ls : list string) :
  Forall (fun l => search (lits "</p>") l = None) ls ->
  sub_group1_nl re_replace1 (paragraphs ls) = lines_nl ls.
Proof.
  unfold sub_group1_nl. induction 1 as [|l ls Hl Hls IH].
  - simpl. now rewrite scan_nil.
  - rewrite paragraphs_cons.
    rewrite (scan_paragraph l (paragraphs ls) Hl).
    cbn [fold_right]. rewrite IH. reflexivity.
Qed.

Lemma findall_paragraphs (ls : list string) :
  Forall (fun l => search (lits "</p>") l = None) ls ->
  findall re_replace1 (paragraphs ls) = ls.
Proof.
  unfold findall. induction 1 as [|l ls Hl Hls IH].
  - simpl. now rewrite scan_nil.
  - rewrite paragraphs_cons.
    rewrite (scan_paragraph l (paragraphs ls) Hl).
    cbn [flat_map List.app]. now rewrite IH.
Qed.

(** Paragraph delimiters bring no closing tag of the container. *)
Lemma paragraphs_free_of_div (ls : list string) :
  Forall (fun l => search (lits "</div>") l = None) ls ->
  search (lits "</div>") (paragraphs ls) = None.
Proof.
  induction 1 as [|l ls Hl Hls IH]; [reflexivity |].
  rewrite paragraphs_cons.
  assert (Hclose : search (lits "</div>") ("</p>" ++ paragraphs ls) = None).
  { cbn [append]. rewrite !search_cons. exact IH. }
  cbn [append]. rewrite !search_cons.
  change (match_at (lits "</div>") (String "<" _)) with (@None (string * string)).
  change (match_at (lits "</div>") (String "p" _)) with (@None (string * string)).
  change (match_at (lits "</div>") (String ">" _)) with (@None (string * string)).
  now apply (search_none_app "<" "/div>").
Qed.

(** [re_get_body] on the opening tag [SerializeBody] writes: the first
    lazy [[^>]*?] takes the blank, the second one nothing, and the group
    starts right after the tag. *)
Lemma match_div_open (r : regex) (s : string) :
  match_at (lits "<div" ++ [Star false (CNot ">")]
             ++ lits "id=" ++ [Chr (CLit dquote)] ++ lits "body"
             ++ [Chr (CLit dquote)] ++ [Star false (CNot ">")] ++ lits ">"
             ++ r)%list (div_open ++ s)
  = match_at r s.
Proof.
  unfold div_open. cbn.
  destruct (match_at r s) as [[g rest]|]; reflexivity.
Qed.

Lemma search_here (r : regex) (s : string) (res : string * string) :
  match_at r s = Some res -> search r s = Some res.
Proof. intros H. destruct s; simpl; now rewrite H. Qed.

(** [re_get_body] on a container whose body has no closing tag of its
    own: the group is the body. *)
Lemma match_container (b : string) :
  search (lits "</div>") b = None ->
  match_at re_get_body (container b) = Some (b, EmptyString).
Proof.
  intros Hb. unfold re_get_body, container.
  rewrite match_div_open.
  rewrite <- (append_nil_r "</div>"), <- append_assoc, append_nil_r.
  rewrite append_assoc.
  now apply (star_until_literal "<" "/div>").
Qed.

Lemma findall_container (b : string) :
  search (lits "</div>") b = None ->
  index0 (findall re_get_body (container b)) = Ok b.
Proof.
  intros Hb.
  apply (findall_first (CLit "<") _ (container b) b EmptyString).
  apply search_here. now apply match_container.
Qed.

(** Decoding a container of paragraphs. *)
Lemma decode_paragraphs (ls : list string) :
  Forall (fun l => search (lits "</p>") l = None) ls ->
  Forall (fun l => search (lits "</div>") l = None) ls ->
  GetBodyFromSource (container (paragraphs ls)) = Ok (lines_nl ls).
Proof.
  intros Hp Hd. unfold GetBodyFromSource.
  rewrite findall_container by now apply paragraphs_free_of_div.
  cbn [bind]. now rewrite sub_paragraphs.
Qed.

Lemma mentions_false (p t : string) :
  mentions p t = false -> search (lits p) t = None.
Proof. unfold mentions. destruct (search (lits p) t); [discriminate | auto]. Qed.

Lemma decode_encode (t : string) :
  mentions "</p>" t = false ->
  mentions "</div>" t = false ->
  GetBodyFromSource (SerializeBody t) = Ok (t ++ String newline EmptyString).
Proof.
  intros Hp Hd. rewrite SerializeBody_container.
  rewrite decode_paragraphs.
  - now rewrite lines_nl_split.
  - apply split_lines_free. now apply mentions_false.
  - apply split_lines_free. now apply mentions_false.
Qed.

End CodecFacts.

(** ** The codec: what decoding an encoding gives *)

Section CodecClaims.

(** Closed goals are settled by running the definitions. *)
Ltac run := vm_compute; reflexivity.
Ltac run_differs := let H := fresh in intro H; vm_compute in H; discriminate H.

(** C1, as stated, fails: the text "a" holds no delimiter and no container
    markup, and decoding its encoding gives "a" followed by a line feed,
    not "a". *)
Lemma C1_roundtrip_counterexample :
  mentions "<p>" "a" = false /\ mentions "</p>" "a" = false /\
  mentions "<div" "a" = false /\ mentions "</div>" "a" = false /\
  GetBodyFromSource (SerializeBody "a") = Ok ("a" ++ nl) /\
  GetBodyFromSource (SerializeBody "a") <> Ok "a".
Proof. repeat split; try run. run_differs. Qed.

(** C1, amended: for every plain text [t] in which neither "</p>" nor
    "</div>" occurs (in any letter case), decoding the encoding of [t]
    gives [t] followed by one line feed. *)
Theorem C1_decode_encode_appends_newline (t : string) :
  mentions "</p>" t = false ->
  mentions "</div>" t = false ->
  GetBodyFromSource (SerializeBody t) = Ok (t ++ String newline EmptyString).
Proof. apply decode_encode. Qed.

(** C1, amended, at the two-line text milk / eggs. *)
Lemma C1_decode_encode_witness :
  mentions "</p>" ("milk" ++ nl ++ "eggs") = false /\
  mentions "</div>" ("milk" ++ nl ++ "eggs") = false /\
  GetBodyFromSource (SerializeBody ("milk" ++ nl ++ "eggs"))
  = Ok (("milk" ++ nl ++ "eggs") ++ String newline EmptyString).
Proof.
  split; [run |]. split; [run |].
  apply (C1_decode_encode_appends_newline ("milk" ++ nl ++ "eggs")); run.
Defined.

(** C2, as stated, fails: the source of the spec's own example holds no
    body container, and decoding it raises IndexError instead of
    returning the empty text. *)
Lemma C2_missing_container_counterexample :
  search re_get_body no_body_source = None /\
  GetBodyFromSource no_body_source = Raise IndexError /\
  GetBodyFromSource no_body_source <> Ok EmptyString.
Proof. repeat split; try run. run_differs. Qed.

(** C2, amended: for every source in which [re_get_body] matches nowhere,
    [GetBodyFromSource] raises IndexError; [initData], its caller, lets
    the error through without touching the note, and does not decode at
    all when the memo has no page. *)
Theorem C2_missing_container_raises (source : string) :
  search re_get_body source = None ->
  GetBodyFromSource source = Raise IndexError /\
  (forall w, memo_source w = source ->
     initData w = if memo_has_page w then (Raise IndexError, w) else (Ok tt, w)).
Proof.
  intros H.
  assert (E : GetBodyFromSource source = Raise IndexError).
  { unfold GetBodyFromSource. now rewrite findall_none. }
  split; [exact E |].
  intros w Hw. unfold initData, then_, read, ret, raise.
  destruct (memo_has_page w); [| reflexivity].
  now rewrite Hw, E.
Qed.

(** C2, amended, at a source that has paragraphs but no div. *)
Lemma C2_missing_container_witness :
  search re_get_body "<p>no container at all</p>" = None /\
  GetBodyFromSource "<p>no container at all</p>" = Raise IndexError.
Proof.
  split; [run |].
  apply (C2_missing_container_raises "<p>no container at all</p>").
  run.
Defined.

(** C5, as stated, fails: encoding what the encoding of "a" decodes to
    gives a container of two paragraphs, not the encoding of "a". *)
Lemma C5_idempotence_counterexample :
  bind (GetBodyFromSource (SerializeBody "a")) (fun d => Ok (SerializeBody d))
  = Ok (container (paragraph "a" ++ paragraph "")) /\
  bind (GetBodyFromSource (SerializeBody "a")) (fun d => Ok (SerializeBody d))
  <> Ok (SerializeBody "a").
Proof. split; [run | run_differs]. Qed.

(** C5, amended: for every plain text [t] in which neither "</p>" nor
    "</div>" occurs (in any letter case), the encoding of [t] is the
    container of the paragraphs of its lines, and encoding the decoding
    of it gives the same container with one more, empty paragraph at the
    end. *)
Theorem C5_reencode_adds_empty_paragraph (t : string) :
  mentions "</p>" t = false ->
  mentions "</div>" t = false ->
  SerializeBody t = container (paragraphs (split_nl t)) /\
  bind (GetBodyFromSource (SerializeBody t)) (fun d => Ok (SerializeBody d))
  = Ok (container (paragraphs (split_nl t) ++ paragraph "")).
Proof.
  intros Hp Hd. split; [apply SerializeBody_container |].
  rewrite (decode_encode t Hp Hd). cbn [bind].
  rewrite SerializeBody_container, split_nl_snoc, paragraphs_app.
  reflexivity.
Qed.

(** C5, amended, at the text tea. *)
Lemma C5_reencode_witness :
  mentions "</p>" "tea" = false /\ mentions "</div>" "tea" = false /\
  bind (GetBodyFromSource (SerializeBody "tea")) (fun d => Ok (SerializeBody d))
  = Ok (container (paragraphs (split_nl "tea") ++ paragraph "")).
Proof.
  split; [run |]. split; [run |].
  apply (C5_reencode_adds_empty_paragraph "tea"); run.
Defined.

(** C6, as stated, fails: the encoding of the empty text is not the
    container of zero paragraphs, and the paragraph pattern finds one
    segment in its body. *)
Lemma C6_empty_text_counterexample :
  SerializeBody "" <> container (paragraphs []) /\
  bind (index0 (findall re_get_body (SerializeBody "")))
       (fun b => Ok (List.length (findall re_replace1 b))) = Ok 1.
Proof. split; [run_differs | run]. Qed.

(** C6, amended: encoding the empty plain text produces a body container
    holding exactly one paragraph segment, an empty one. *)
Theorem C6_empty_text_one_empty_paragraph :
  split_nl "" = [""] /\
  SerializeBody "" = container (paragraph "") /\
  bind (index0 (findall re_get_body (SerializeBody "")))
       (fun b => Ok (findall re_replace1 b)) = Ok [""].
Proof. repeat split; run. Qed.

(** C7, as stated, fails in its last part: decoding the encoding of the
    three lines a, (empty), b gives a text that ends with a line feed,
    which is not the text of the three lines and splits into four. *)
Lemma C7_three_lines_counterexample :
  GetBodyFromSource (SerializeBody three_lines) <> Ok three_lines /\
  bind (GetBodyFromSource (SerializeBody three_lines)) (fun d => Ok (split_nl d))
  = Ok ["a"; ""; "b"; ""] /\
  bind (GetBodyFromSource (SerializeBody three_lines)) (fun d => Ok (split_nl d))
  <> Ok ["a"; ""; "b"].
Proof. split; [run_differs |]. split; [run | run_differs]. Qed.

(** C7, amended: for every plain text, the encoding is the container of
    one paragraph per line, in order, empty lines included, none dropped
    (the lines joined give the text back, and there is one more of them
    than the text has line feeds); the three lines a, (empty), b give
    exactly three segments, the middle one empty, and decoding that gives
    each of the three lines followed by a line feed. *)
Theorem C7_every_line_has_its_paragraph :
  (forall t,
     SerializeBody t = container (paragraphs (split_nl t)) /\
     join_nl (split_nl t) = t /\
     List.length (split_nl t) = S (count_nl t)) /\
  split_nl three_lines = ["a"; ""; "b"] /\
  SerializeBody three_lines
  = container (paragraph "a" ++ paragraph "" ++ paragraph "b") /\
  findall re_replace1 (paragraph "a" ++ paragraph "" ++ paragraph "b")
  = ["a"; ""; "b"] /\
  GetBodyFromSource (SerializeBody three_lines) = Ok (lines_nl ["a"; ""; "b"]).
Proof.
  split.
  - intros t. split; [apply SerializeBody_container |].
    split; [apply join_split | apply length_split].
  - repeat split; run.
Qed.

(** C10, as stated, fails: the body that [SerializeBody] stores for the
    text a</p>b holds one paragraph segment, and the decoded text does
    not end with a line feed. *)
Lemma C10_trailing_newline_counterexample :
  index0 (findall re_get_body (SerializeBody "a</p>b")) = Ok "<p>a</p>b</p>" /\
  findall re_replace1 "<p>a</p>b</p>" = ["a"] /\
  GetBodyFromSource (SerializeBody "a</p>b") = Ok ("a" ++ nl ++ "b</p>") /\
  ends_with_newline ("a" ++ nl ++ "b</p>") = false.
Proof. repeat split; run. Qed.

(** C10, amended: for every stored source whose body container consists
    of one or more paragraph segments and nothing else (their contents
    without "</p>" in any letter case), each segment is replaced by its
    content followed by a line feed: the decoded text is the contents
    joined by line feeds plus one more line feed, and so ends with
    one. *)
Theorem C10_decoded_ends_with_newline (source : string) (ls : list string) :
  index0 (findall re_get_body source) = Ok (paragraphs ls) ->
  ls <> [] ->
  Forall (fun l => mentions "</p>" l = false) ls ->
  GetBodyFromSource source = Ok (lines_nl ls) /\
  lines_nl ls = join_nl ls ++ String newline EmptyString /\
  ends_with_newline (lines_nl ls) = true.
Proof.
  intros Hbody Hne Hls.
  assert (Hjoin : lines_nl ls = join_nl ls ++ String newline EmptyString)
    by now apply lines_nl_join.
  split; [| split; [exact Hjoin |]].
  - unfold GetBodyFromSource. rewrite Hbody. cbn [bind].
    rewrite sub_paragraphs; [reflexivity |].
    eapply Forall_impl; [| exact Hls]. intros l. apply mentions_false.
  - rewrite Hjoin. apply ends_with_newline_snoc.
Qed.

(** C10, amended, at a stored page with two paragraphs. *)
Lemma C10_decoded_ends_with_newline_witness :
  index0 (findall re_get_body styled_source) = Ok (paragraphs ["one"; "two"]) /\
  ["one"; "two"] <> [] /\
  Forall (fun l => mentions "</p>" l = false) ["one"; "two"] /\
  GetBodyFromSource styled_source = Ok (lines_nl ["one"; "two"]).
Proof.
  split; [run |]. split; [discriminate |].
  split; [repeat constructor |].
  apply (C10_decoded_ends_with_newline styled_source ["one"; "two"]).
  - run.
  - discriminate.
  - repeat constructor.
Defined.

End CodecClaims.

(** ** The handlers: what a save, a close, a toggle and a rename do *)

Section HandlerFacts.

(** The save sequence shared by [OnTimerEvent] and [OnStatus], run on a
    world: the timer is stopped and the call made in any case; the flag is
    cleared exactly when the call returns. *)
Lemma OnTimerEvent_run (o : save_outcome) (w : World) :
  OnTimerEvent o w =
  let w1 := with_memo_calls (memo_calls w ++ [save_memo])%list (with_timer None w) in
  match o with
  | SaveReturns _ =>
      (Ok tt, with_button_status "./icons2/green1.png" (with_is_modified false w1))
  | SaveRaises => (Raise MemoError, w1)
  end.
Proof. destruct o; reflexivity. Qed.

Lemma OnStatus_run (o : save_outcome) (w : World) :
  OnStatus o w = if is_modified w then OnTimerEvent o w else (Ok tt, w).
Proof.
  unfold OnStatus, then_, read. destruct (is_modified w); reflexivity.
Qed.

Lemma OnClose_run (w : World) :
  OnClose w
  = (Ok tt, with_memo_calls (memo_calls w ++ [close_memo])%list (with_shown false w)).
Proof. reflexivity. Qed.

Lemma OnButtonIsOpen_run (o : save_outcome) (w : World) :
  OnButtonIsOpen o w =
  let b := negb (memo_is_open w) in
  let w1 := with_memo_calls (memo_calls w ++ [save_memo])%list
              (with_shown b (with_memo_is_open b w)) in
  match o with
  | SaveReturns _ => (Ok tt, with_button_isopen (if b then "O" else "X") w1)
  | SaveRaises => (Raise MemoError, w1)
  end.
Proof.
  destruct o; unfold OnButtonIsOpen, then_, read, write; simpl;
    destruct (memo_is_open w); reflexivity.
Qed.

End HandlerFacts.

Section HandlerClaims.

Ltac run := vm_compute; reflexivity.

(** C3: a save that fails, which the handlers can only meet as the save
    call raising, ends with the error handed on, the modified flag still
    set (the session stays Dirty), the text unchanged and the timer
    stopped, not started again; through the timer and through the status
    button alike. *)
Theorem C3_failed_save_stays_dirty (w : World) :
  is_modified w = true ->
  (fst (OnTimerEvent SaveRaises w) = Raise MemoError /\
   is_modified (snd (OnTimerEvent SaveRaises w)) = true /\
   text (snd (OnTimerEvent SaveRaises w)) = text w /\
   timer (snd (OnTimerEvent SaveRaises w)) = None) /\
  (fst (OnStatus SaveRaises w) = Raise MemoError /\
   is_modified (snd (OnStatus SaveRaises w)) = true /\
   text (snd (OnStatus SaveRaises w)) = text w /\
   timer (snd (OnStatus SaveRaises w)) = None).
Proof.
  intros Hm. rewrite OnStatus_run, Hm, OnTimerEvent_run. cbn.
  repeat split; exact Hm.
Qed.

(** C3 at the note with a typed draft and a running timer. *)
Lemma C3_failed_save_stays_dirty_witness :
  is_modified dirty_world = true /\
  timer dirty_world = Some DEFAULT_TIMER_TIME /\
  is_modified (snd (OnTimerEvent SaveRaises dirty_world)) = true /\
  timer (snd (OnTimerEvent SaveRaises dirty_world)) = None.
Proof.
  split; [reflexivity |]. split; [reflexivity |].
  pose proof (proj1 (C3_failed_save_stays_dirty dirty_world eq_refl))
    as (_ & Hflag & _ & Htimer).
  split; [exact Hflag | exact Htimer].
Defined.

(** C4, as stated, fails: closing a modified note makes no save call
    before [close_memo]; the flag stays set and the timer stays armed. *)
Lemma C4_close_while_dirty_counterexample :
  is_modified dirty_world = true /\
  memo_calls dirty_world = [] /\
  memo_calls (snd (OnClose dirty_world)) = [close_memo] /\
  is_modified (snd (OnClose dirty_world)) = true /\
  timer (snd (OnClose dirty_world)) = Some DEFAULT_TIMER_TIME.
Proof. repeat split. Qed.

(** C4, amended: a close request, on a modified note or not, hides the
    window and calls [close_memo], and nothing else: no save call is made,
    the modified flag, the text and the timer are untouched; a timer left
    armed makes the save call when it fires, after the close. *)
Theorem C4_close_hides_and_calls_close_memo (w : World) (o : save_outcome) :
  OnClose w
  = (Ok tt, with_memo_calls (memo_calls w ++ [close_memo])%list (with_shown false w)) /\
  is_modified (snd (OnClose w)) = is_modified w /\
  text (snd (OnClose w)) = text w /\
  timer (snd (OnClose w)) = timer w /\
  memo_calls (snd (OnTimerEvent o (snd (OnClose w))))
  = (memo_calls w ++ [close_memo; save_memo])%list.
Proof.
  rewrite OnTimerEvent_run, OnClose_run. repeat split.
  destruct o; cbn; now rewrite <- app_assoc.
Qed.

(** C8, as stated, fails: toggled while an edit is pending, the note is
    still modified after the toggle's save, and the armed timer makes a
    second save call before the flag is cleared; toggled with nothing
    pending, the flag is never set. *)
Lemma C8_toggle_counterexample :
  is_modified dirty_world = true /\
  is_modified (snd (OnButtonIsOpen (SaveReturns true) dirty_world)) = true /\
  memo_calls (snd (OnTimerEvent (SaveReturns true)
                     (snd (OnButtonIsOpen (SaveReturns true) dirty_world))))
  = [save_memo; save_memo] /\
  is_modified clean_world = false /\
  is_modified (snd (OnButtonIsOpen (SaveReturns true) clean_world)) = false /\
  button_status (snd (OnButtonIsOpen (SaveReturns true) clean_world))
  = button_status clean_world.
Proof. repeat split. Qed.

(** C8, amended: every visibility toggle flips [is_open], shows or hides
    the note accordingly and makes exactly one [save_memo] call, directly;
    the modified flag, its icon, the timer and the text are left as they
    were. *)
Theorem C8_toggle_saves_once_flag_untouched (w : World) (o : save_outcome) :
  memo_is_open (snd (OnButtonIsOpen o w)) = negb (memo_is_open w) /\
  shown (snd (OnButtonIsOpen o w)) = negb (memo_is_open w) /\
  memo_calls (snd (OnButtonIsOpen o w)) = (memo_calls w ++ [save_memo])%list /\
  is_modified (snd (OnButtonIsOpen o w)) = is_modified w /\
  button_status (snd (OnButtonIsOpen o w)) = button_status w /\
  timer (snd (OnButtonIsOpen o w)) = timer w /\
  text (snd (OnButtonIsOpen o w)) = text w.
Proof.
  rewrite OnButtonIsOpen_run. destruct o; cbn; repeat split.
Qed.

(** C9, as stated, fails in its last part: an accepted rename does not go
    through the save sequence of the note. Over a note with nothing
    pending it never sets the modified flag, its icon or the timer; over a
    note with an edit pending it leaves the flag set and the timer
    running after its own save, so that the timer makes a second save
    call. *)
Lemma C9_rename_pipeline_counterexample :
  on_modifying renaming_groceries = true /\
  is_modified renaming_groceries = false /\
  is_modified (snd (OnButtonModify EVT_BUTTON (SaveReturns true) renaming_groceries))
  = false /\
  timer (snd (OnButtonModify EVT_BUTTON (SaveReturns true) renaming_groceries))
  = None /\
  button_status (snd (OnButtonModify EVT_BUTTON (SaveReturns true) renaming_groceries))
  = button_status renaming_groceries /\
  on_modifying renaming_dirty = true /\
  is_modified (snd (OnButtonModify EVT_BUTTON (SaveReturns true) renaming_dirty))
  = true /\
  timer (snd (OnButtonModify EVT_BUTTON (SaveReturns true) renaming_dirty))
  = Some DEFAULT_TIMER_TIME /\
  memo_calls (snd (OnTimerEvent (SaveReturns true)
                     (snd (OnButtonModify EVT_BUTTON (SaveReturns true) renaming_dirty))))
  = [set_title "groceries"; save_memo; save_memo].
Proof. repeat split. Qed.

(** C9, amended: in rename mode, a title of length zero changes nothing at
    all (no field, no call on the memo); a title of positive length is
    handed to [set_title] and saved at once with one direct [save_memo]
    call, the modified flag, its icon, the timer and the text of the note
    staying as they were; after that call has returned, rename mode is
    left. *)
Theorem C9_rename_validates_and_saves_directly
        (w : World) (evt : evt_type) (o : save_outcome) :
  on_modifying w = true ->
  match String.length (text_title w) with
  | 0 => OnButtonModify evt o w = (Ok tt, w)
  | S _ =>
      memo_calls (snd (OnButtonModify evt o w))
      = (memo_calls w ++ [set_title (text_title w); save_memo])%list /\
      is_modified (snd (OnButtonModify evt o w)) = is_modified w /\
      button_status (snd (OnButtonModify evt o w)) = button_status w /\
      timer (snd (OnButtonModify evt o w)) = timer w /\
      text (snd (OnButtonModify evt o w)) = text w /\
      match o with
      | SaveReturns _ =>
          fst (OnButtonModify evt o w) = Ok tt /\
          on_modifying (snd (OnButtonModify evt o w)) = false /\
          text_title_editable (snd (OnButtonModify evt o w)) = false /\
          button_modify (snd (OnButtonModify evt o w)) = "M"
      | SaveRaises =>
          fst (OnButtonModify evt o w) = Raise MemoError /\
          on_modifying (snd (OnButtonModify evt o w)) = true
      end
  end.
Proof.
  intros Hm. unfold OnButtonModify, then_, read. rewrite Hm.
  rewrite andb_false_r. cbn [negb].
  destruct (String.length (text_title w)) as [|n] eqn:E; cbn [Nat.ltb Nat.leb].
  - reflexivity.
  - destruct o; cbn; rewrite <- ?app_assoc; repeat split; assumption.
Qed.

(** C9, amended, at a node in rename mode, once with the title emptied and
    once with a new title typed. *)
Lemma C9_rename_validates_witness :
  on_modifying renaming_empty = true /\
  OnButtonModify EVT_BUTTON (SaveReturns true) renaming_empty
  = (Ok tt, renaming_empty) /\
  on_modifying renaming_groceries = true /\
  memo_calls (snd (OnButtonModify EVT_TEXT_ENTER (SaveReturns true) renaming_groceries))
  = [set_title "groceries"; save_memo].
Proof.
  split; [reflexivity |]. split.
  - exact (C9_rename_validates_and_saves_directly
             renaming_empty EVT_BUTTON (SaveReturns true) eq_refl).
  - split; [reflexivity |].
    exact (proj1 (C9_rename_validates_and_saves_directly
                    renaming_groceries EVT_TEXT_ENTER (SaveReturns true) eq_refl)).
Defined.

End HandlerClaims.

(** ** More on the codec *)

Section CodecMore.

Lemma cls_match_lit_sym (a c : ascii) : cls_match (CLit a) c = cls_match (CLit c) a.
Proof. simpl. apply Ascii.eqb_sym. Qed.

(** The lazy star over any character finds a match of the rest whenever
    one lies ahead. *)
Lemma star_any_finds (r : regex) (l s : string) (res : string * string) :
  match_at r s = Some res ->
  exists res', match_at (Star true CAny :: r) (l ++ s) = Some res'.
Proof.
  intros H. induction l as [|c l [res' IH]].
  - exists res. simpl append. now rewrite match_at_star, H.
  - cbn [append]. rewrite match_at_star.
    destruct (match_at r (String c (l ++ s))) as [res''|]; [now eexists |].
    cbn [cls_match]. rewrite IH. destruct res'. now eexists.
Qed.

(** The lazy star over any character fails when the rest matches nowhere. *)
Lemma star_any_fails (cap : bool) (r : regex) (x : string) :
  search r x = None -> match_at (Star cap CAny :: r) x = None.
Proof.
  induction x as [|c x IH]; intros H; rewrite match_at_star.
  - now rewrite (search_none_here _ _ H).
  - apply search_none_cons in H as [Hc Hx].
    rewrite Hc. cbn [cls_match]. now rewrite IH.
Qed.

Lemma search_none_tail (r : regex) (y x : string) :
  search r (y ++ x) = None -> search r x = None.
Proof.
  induction y as [|c y IH]; intros H; [exact H |].
  apply search_none_cons in H as [_ H]. now apply IH.
Qed.

(** A match of literals followed by [r] is a match of [r] further on. *)
Lemma match_at_lits_then (p : string) (r : regex) (x : string)
      (res : string * string) :
  match_at (lits p ++ r)%list x = Some res ->
  exists x1 x2, x = x1 ++ x2 /\ match_at r x2 = Some res.
Proof.
  revert x. induction p as [|a p IH]; intros x H.
  - exists EmptyString, x. now split.
  - destruct x as [|c x]; [discriminate |].
    cbn [lits List.app] in H. rewrite match_at_chr in H.
    destruct (cls_match (CLit a) c); [| discriminate].
    destruct (IH x H) as (x1 & x2 & -> & Hr).
    exists (String c x1), x2. now split.
Qed.

Lemma match_at_lits_fail_app (p : string) (r : regex) (x : string) :
  match_at (lits p) x = None -> match_at (lits p ++ r)%list x = None.
Proof.
  revert x. induction p as [|a p IH]; intros x H; [discriminate |].
  destruct x as [|c x]; [reflexivity |].
  cbn [lits List.app] in *. rewrite match_at_chr in *.
  destruct (cls_match (CLit a) c); [now apply IH | reflexivity].
Qed.

(** Where a pattern matches at no place of a text, the substitution copies
    the text. *)
Lemma sub_no_match (r : regex) (s : string) :
  (forall y x, s = y ++ x -> match_at r x = None) ->
  sub_group1_nl r s = s.
Proof.
  unfold sub_group1_nl. induction s as [|c s IH]; intros H.
  - now rewrite scan_nil.
  - rewrite scan_cons, (H EmptyString (String c s) eq_refl).
    cbn [fold_right]. rewrite IH; [reflexivity |].
    intros y x ->. now apply (H (String c y) x).
Qed.

Lemma replace1_needs_open (s y x : string) :
  search (lits "<p>") s = None -> s = y ++ x -> match_at re_replace1 x = None.
Proof.
  intros H ->. unfold re_replace1. apply match_at_lits_fail_app.
  now apply search_none_suffix with (y := y).
Qed.

Lemma replace1_needs_close (s y x : string) :
  search (lits "</p>") s = None -> s = y ++ x -> match_at re_replace1 x = None.
Proof.
  intros H ->. unfold re_replace1.
  destruct (match_at (lits "<p>" ++ [Star true CAny] ++ lits "</p>")%list x)
    as [res|] eqn:E; [| reflexivity].
  apply match_at_lits_then in E as (x1 & x2 & -> & E).
  rewrite <- append_assoc in H. apply search_none_tail in H.
  cbn [List.app] in E. now rewrite (star_any_fails _ _ _ H) in E.
Qed.

(** [re_get_body] on a container with text after it. *)
Lemma match_container_then (b post : string) :
  search (lits "</div>") b = None ->
  match_at re_get_body (container b ++ post) = Some (b, post).
Proof.
  intros Hb. unfold re_get_body, container.
  rewrite !append_assoc. rewrite match_div_open.
  now apply (star_until_literal "<" "/div>").
Qed.

(** Characters that cannot start a match are passed over. *)
Lemma search_skips (k : cls) (r : regex) (pre s : string) :
  avoids pre "<" = true -> k = CLit "<" ->
  search (Chr k :: r) (pre ++ s) = search (Chr k :: r) s.
Proof.
  intros Hpre ->. induction pre as [|c pre IH]; [reflexivity |].
  cbn [avoids] in Hpre. apply andb_true_iff in Hpre as [Hc Hpre].
  cbn [append]. rewrite search_cons, match_at_chr.
  rewrite cls_match_lit_sym. apply negb_true_iff in Hc. rewrite Hc.
  now apply IH.
Qed.

Lemma append_newline_inj (a b : string) :
  a ++ String newline EmptyString = b ++ String newline EmptyString -> a = b.
Proof.
  revert b. induction a as [|x a IH]; intros [|y b] H; cbn [append] in H.
  - reflexivity.
  - injection H as _ H. destruct b; discriminate.
  - injection H as _ H. destruct a; discriminate.
  - injection H as -> H. f_equal. now apply IH.
Qed.

Lemma mentions_snoc_newline (a : ascii) (q t : string) :
  avoids q newline = true ->
  search (lits (String a q)) (String newline EmptyString) = None ->
  mentions (String a q) t = false ->
  mentions (String a q) (t ++ String newline EmptyString) = false.
Proof.
  intros Hav Hnl Ht. unfold mentions.
  rewrite (search_none_app a q t newline EmptyString Hav (mentions_false _ _ Ht) Hnl).
  reflexivity.
Qed.

End CodecMore.

Section CodecExtras.

Ltac run := vm_compute; reflexivity.

Lemma star_until_match (a : ascii) (q l : string) (c : ascii) (y rest : string) :
  avoids q c = true ->
  search (lits (String a q)) l = None ->
  match_at (lits (String a q)) (String c y) = Some (EmptyString, rest) ->
  match_at (Star true CAny :: lits (String a q)) (l ++ String c y) = Some (l, rest).
Proof.
  intros Hav Hl Hy. rewrite star_walks.
  - rewrite match_at_star, Hy. now rewrite append_nil_r.
  - intros y' x -> Hx. destruct x as [|b x]; [congruence |].
    apply match_at_lits_straddle; [exact Hav |].
    now apply search_none_suffix with (y := y').
Qed.

Lemma match_p_open (u : bool) (r : regex) (s : string) :
  match_at (lits "<p>" ++ r)%list (p_open u ++ s) = match_at r s.
Proof. destruct u; reflexivity. Qed.

Lemma match_p_close (u : bool) (rest : string) :
  match_at (lits "</p>") (p_close u ++ rest) = Some (EmptyString, rest).
Proof. destruct u; reflexivity. Qed.

Lemma scan_paragraph_any_case (u1 u2 : bool) (l rest : string) :
  search (lits "</p>") l = None ->
  scan re_replace1 (p_open u1 ++ l ++ p_close u2 ++ rest)
  = Matched l :: scan re_replace1 rest.
Proof.
  intros Hl. apply (scan_match (CLit "<")).
  change (match_at re_replace1 (p_open u1 ++ l ++ p_close u2 ++ rest) = Some (l, rest)).
  unfold re_replace1. rewrite match_p_open.
  assert (E : p_close u2 ++ rest
              = String "<" (String "/" ((if u2 then "P>" else "p>") ++ rest)))
    by (destruct u2; reflexivity).
  rewrite E. apply (star_until_match "<" "/p>"); [reflexivity | exact Hl |].
  rewrite <- E. apply match_p_close.
Qed.

Lemma findall_first_body (s g rest : string) :
  search re_get_body s = Some (g, rest) ->
  index0 (findall re_get_body s) = Ok g.
Proof. apply (findall_first (CLit "<")). Qed.

(** X1. What [SerializeBody] writes can always be read back: for every
    text, [GetBodyFromSource] of its encoding returns a text and does not
    raise. *)
Theorem X1_encoding_always_decodes (t : string) :
  exists d, GetBodyFromSource (SerializeBody t) = Ok d.
Proof.
  rewrite SerializeBody_container. unfold GetBodyFromSource.
  destruct (star_any_finds (lits "</div>") (paragraphs (split_nl t)) "</div>"
              (EmptyString, EmptyString) eq_refl) as [[g rest] Hm].
  assert (Hc : match_at re_get_body (container (paragraphs (split_nl t)))
               = Some (g, rest)).
  { unfold re_get_body, container. now rewrite match_div_open. }
  rewrite (findall_first_body _ g rest (search_here _ _ _ Hc)).
  cbn [bind]. now eexists.
Qed.

(** X2. Only the first container counts: text before it that has no "<",
    and anything after its closing tag, change neither the body found nor
    the decoded text. *)
Theorem X2_first_container_only (pre b post : string) :
  avoids pre "<" = true ->
  mentions "</div>" b = false ->
  index0 (findall re_get_body (pre ++ container b ++ post)) = Ok b /\
  GetBodyFromSource (pre ++ container b ++ post)
  = GetBodyFromSource (container b).
Proof.
  intros Hpre Hb. apply mentions_false in Hb.
  assert (E : index0 (findall re_get_body (pre ++ container b ++ post)) = Ok b).
  { apply (findall_first_body _ b post). unfold re_get_body at 1.
    cbn [lits List.app].
    rewrite (search_skips (CLit "<") _ pre _ Hpre eq_refl).
    apply search_here. now apply match_container_then. }
  split; [exact E |].
  unfold GetBodyFromSource. now rewrite E, findall_container.
Qed.

Lemma X2_first_container_only_witness :
  avoids "My note: " "<" = true /\
  mentions "</div>" "<p>tea</p>" = false /\
  GetBodyFromSource ("My note: " ++ container "<p>tea</p>" ++ container "<p>x</p>")
  = GetBodyFromSource (container "<p>tea</p>").
Proof.
  split; [run |]. split; [run |].
  apply (X2_first_container_only "My note: " "<p>tea</p>" (container "<p>x</p>")); run.
Defined.

(** X3. For a text without "</p>" and "</div>" (in any letter case), the
    paragraph segments the decoder finds in the encoded body are exactly
    the lines of the text, in order. *)
Theorem X3_segments_are_the_lines (t : string) :
  mentions "</p>" t = false ->
  mentions "</div>" t = false ->
  bind (index0 (findall re_get_body (SerializeBody t)))
       (fun b => Ok (findall re_replace1 b))
  = Ok (split_nl t).
Proof.
  intros Hp Hd. rewrite SerializeBody_container.
  rewrite findall_container.
  - cbn [bind]. rewrite findall_paragraphs; [reflexivity |].
    apply split_lines_free. now apply mentions_false.
  - apply paragraphs_free_of_div, split_lines_free. now apply mentions_false.
Qed.

Lemma X3_segments_are_the_lines_witness :
  mentions "</p>" ("x" ++ nl ++ nl ++ "y") = false /\
  mentions "</div>" ("x" ++ nl ++ nl ++ "y") = false /\
  bind (index0 (findall re_get_body (SerializeBody ("x" ++ nl ++ nl ++ "y"))))
       (fun b => Ok (findall re_replace1 b))
  = Ok (split_nl ("x" ++ nl ++ nl ++ "y")).
Proof.
  split; [run |]. split; [run |].
  apply (X3_segments_are_the_lines ("x" ++ nl ++ nl ++ "y")); run.
Defined.

(** X4. A body in which no opening "<p>" or no closing "</p>" occurs (in
    any letter case) holds no paragraph segment: it is decoded to itself,
    with no line feed added. *)
Theorem X4_body_without_paragraph_unchanged (b : string) :
  mentions "</div>" b = false ->
  mentions "<p>" b = false \/ mentions "</p>" b = false ->
  GetBodyFromSource (container b) = Ok b.
Proof.
  intros Hd Hp. unfold GetBodyFromSource.
  rewrite findall_container by now apply mentions_false.
  cbn [bind]. f_equal. apply sub_no_match. intros y x E.
  destruct Hp as [Hp | Hp]; apply mentions_false in Hp.
  - now apply (replace1_needs_open b y x).
  - now apply (replace1_needs_close b y x).
Qed.

Lemma X4_body_without_paragraph_unchanged_witness :
  mentions "</div>" "<p>never closed" = false /\
  (mentions "<p>" "<p>never closed" = false \/
   mentions "</p>" "<p>never closed" = false) /\
  GetBodyFromSource (container "<p>never closed") = Ok "<p>never closed".
Proof.
  split; [run |]. split; [right; run |].
  apply (X4_body_without_paragraph_unchanged "<p>never closed");
    [run | right; run].
Defined.

(** X5. The paragraph tags are read in either letter case: a segment
    opened by <p> or <P> and closed by </p> or </P> is replaced by its
    content and a line feed, and the substitution goes on after it. *)
Theorem X5_paragraph_tags_in_any_case (u1 u2 : bool) (l rest : string) :
  mentions "</p>" l = false ->
  sub_group1_nl re_replace1 (p_open u1 ++ l ++ p_close u2 ++ rest)
  = l ++ String newline (sub_group1_nl re_replace1 rest).
Proof.
  intros Hl. unfold sub_group1_nl.
  now rewrite (scan_paragraph_any_case u1 u2 l rest (mentions_false _ _ Hl)).
Qed.

Lemma X5_paragraph_tags_in_any_case_witness :
  mentions "</p>" "one" = false /\
  sub_group1_nl re_replace1 (p_open true ++ "one" ++ p_close true ++ "<p>two</P>")
  = "one" ++ String newline (sub_group1_nl re_replace1 "<p>two</P>").
Proof.
  split; [run |].
  apply (X5_paragraph_tags_in_any_case true true "one" "<p>two</P>"); run.
Defined.

(** X6. Every store-and-load cycle adds one line feed: for a text without
    "</p>" and "</div>" (in any letter case), [n] cycles end with the text
    followed by [n] line feeds. *)
Theorem X6_reopen_cycles_add_newlines (n : nat) (t : string) :
  mentions "</p>" t = false ->
  mentions "</div>" t = false ->
  reopen_cycles n t = Ok (t ++ newlines n).
Proof.
  revert t. induction n as [|n IH]; intros t Hp Hd.
  - simpl. now rewrite append_nil_r.
  - cbn [reopen_cycles]. rewrite (decode_encode t Hp Hd). cbn [bind].
    rewrite IH.
    + now rewrite append_assoc.
    + now apply (mentions_snoc_newline "<" "/p>").
    + now apply (mentions_snoc_newline "<" "/div>").
Qed.

Lemma X6_reopen_cycles_add_newlines_witness :
  mentions "</p>" "memo" = false /\ mentions "</div>" "memo" = false /\
  reopen_cycles 3 "memo" = Ok ("memo" ++ newlines 3).
Proof.
  split; [run |]. split; [run |].
  apply (X6_reopen_cycles_add_newlines 3 "memo"); run.
Defined.

(** X7. Two texts without "</p>" and "</div>" (in any letter case) that
    are encoded to the same source are the same text. *)
Theorem X7_SerializeBody_injective (t1 t2 : string) :
  mentions "</p>" t1 = false -> mentions "</div>" t1 = false ->
  mentions "</p>" t2 = false -> mentions "</div>" t2 = false ->
  SerializeBody t1 = SerializeBody t2 -> t1 = t2.
Proof.
  intros Hp1 Hd1 Hp2 Hd2 E.
  pose proof (decode_encode t1 Hp1 Hd1) as D1.
  rewrite E, (decode_encode t2 Hp2 Hd2) in D1.
  injection D1 as D1. symmetry. now apply append_newline_inj.
Qed.

Lemma X7_SerializeBody_injective_witness :
  mentions "</p>" "a" = false /\ mentions "</div>" "a" = false /\
  SerializeBody "a" = SerializeBody ("" ++ "a") /\ "a" = "" ++ "a".
Proof.
  split; [run |]. split; [run |]. split; [run |].
  apply (X7_SerializeBody_injective "a" ("" ++ "a")); run.
Defined.

End CodecExtras.

(** ** More on the handlers *)

Section HandlerMore.

Lemma run_app (es1 es2 : list event) (w : World) :
  run (es1 ++ es2)%list w = run es2 (run es1 w).
Proof. apply fold_left_app. Qed.

Lemma run_cons (e : event) (es : list event) (w : World) :
  run (e :: es) w = run es (deliver w e).
Proof. reflexivity. Qed.

(** An edit sets the text and the flag and (re)starts the timer. *)
Lemma deliver_TypesText (s : string) (w : World) :
  deliver w (TypesText s)
  = with_timer (Some DEFAULT_TIMER_TIME)
      (with_button_status "./icons2/blue1.png" (with_is_modified true (with_text s w))).
Proof.
  destruct w as [? ? ? ? ? ? tm ? ? ? ? ? ? ? ?].
  destruct tm; reflexivity.
Qed.

Lemma deliver_TimerExpires (o : save_outcome) (w : World) :
  deliver w (TimerExpires o)
  = match timer w with
    | Some _ => snd (OnTimerEvent o w)
    | None => w
    end.
Proof.
  unfold deliver, handler, then_, read. destruct (timer w); reflexivity.
Qed.

Lemma OnButtonModify_run (evt : evt_type) (o : save_outcome) (w : World) :
  OnButtonModify evt o w =
  if on_modifying w then
    if Nat.ltb 0 (String.length (text_title w)) then
      let w1 := with_memo_calls
                  (memo_calls w ++ [set_title (text_title w); save_memo])%list w in
      match o with
      | SaveReturns _ =>
          (Ok tt, with_text_title_editable false
                    (with_on_modifying false (with_button_modify "M" w1)))
      | SaveRaises => (Raise MemoError, w1)
      end
    else (Ok tt, w)
  else if is_text_enter evt then (Ok tt, w)
  else (Ok tt, with_button_modify "저장"
                 (with_text_title_editable true (with_on_modifying true w))).
Proof.
  unfold OnButtonModify, then_, read.
  destruct (on_modifying w) eqn:Hm.
  - rewrite andb_false_r. cbn [negb].
    destruct (Nat.ltb 0 (String.length (text_title w))); [| reflexivity].
    destruct o; cbn; rewrite <- ?app_assoc; reflexivity.
  - rewrite andb_true_r. cbn [negb].
    destruct (is_text_enter evt); reflexivity.
Qed.

Lemma deliver_keeps_calls_when_typing (ss : list string) (w : World) :
  memo_calls (run (map TypesText ss) w) = memo_calls w.
Proof.
  revert w. induction ss as [|s ss IH]; intros w; [reflexivity |].
  cbn [map]. rewrite run_cons, IH, deliver_TypesText. reflexivity.
Qed.

Lemma text_after_deliver (e : event) (w : World) :
  text (deliver w e) = match e with TypesText s => s | _ => text w end.
Proof.
  destruct e as [s|o|o| |o|o|s|o| ].
  - now rewrite deliver_TypesText.
  - rewrite deliver_TimerExpires. destruct (timer w); [| reflexivity].
    rewrite OnTimerEvent_run. now destruct o.
  - unfold deliver, handler. rewrite OnStatus_run.
    destruct (is_modified w); [| reflexivity].
    rewrite OnTimerEvent_run. now destruct o.
  - reflexivity.
  - unfold deliver, handler. rewrite OnButtonModify_run.
    destruct (on_modifying w), (Nat.ltb 0 (String.length (text_title w))), o;
      reflexivity.
  - unfold deliver, handler. rewrite OnButtonModify_run.
    destruct (on_modifying w), (Nat.ltb 0 (String.length (text_title w))), o;
      reflexivity.
  - unfold deliver, handler, then_, read.
    destruct (text_title_editable w); reflexivity.
  - unfold deliver, handler. rewrite OnButtonIsOpen_run. now destruct o.
  - reflexivity.
Qed.

Lemma armed_after_deliver (e : event) (w : World) :
  armed_is_modified w -> armed_is_modified (deliver w e).
Proof.
  unfold armed_is_modified. intros H.
  destruct e as [s|o|o| |o|o|s|o| ].
  - now rewrite deliver_TypesText.
  - rewrite deliver_TimerExpires. destruct (timer w) eqn:E; [| now rewrite E].
    rewrite OnTimerEvent_run. destruct o; cbn; congruence.
  - unfold deliver, handler. rewrite OnStatus_run.
    destruct (is_modified w) eqn:E;
      [| cbn; intros Ht; specialize (H Ht); congruence].
    rewrite OnTimerEvent_run. destruct o; cbn; congruence.
  - exact H.
  - unfold deliver, handler. rewrite OnButtonModify_run.
    destruct (on_modifying w), (Nat.ltb 0 (String.length (text_title w))), o;
      exact H.
  - unfold deliver, handler. rewrite OnButtonModify_run.
    destruct (on_modifying w), (Nat.ltb 0 (String.length (text_title w))), o;
      exact H.
  - unfold deliver, handler, then_, read.
    destruct (text_title_editable w); exact H.
  - unfold deliver, handler. rewrite OnButtonIsOpen_run. destruct o; exact H.
  - exact H.
Qed.

Lemma editable_after_deliver (e : event) (w : World) :
  editable_while_renaming w -> editable_while_renaming (deliver w e).
Proof.
  unfold editable_while_renaming. intros H.
  destruct e as [s|o|o| |o|o|s|o| ].
  - now rewrite deliver_TypesText.
  - rewrite deliver_TimerExpires. destruct (timer w); [| exact H].
    rewrite OnTimerEvent_run. destruct o; exact H.
  - unfold deliver, handler. rewrite OnStatus_run.
    destruct (is_modified w); [| exact H].
    rewrite OnTimerEvent_run. destruct o; exact H.
  - exact H.
  - unfold deliver, handler. rewrite OnButtonModify_run.
    destruct (on_modifying w) eqn:E,
             (Nat.ltb 0 (String.length (text_title w))), o;
      cbn; congruence.
  - unfold deliver, handler. rewrite OnButtonModify_run.
    destruct (on_modifying w) eqn:E,
             (Nat.ltb 0 (String.length (text_title w))), o;
      cbn; congruence.
  - unfold deliver, handler, then_, read.
    destruct (text_title_editable w) eqn:E; cbn; congruence.
  - unfold deliver, handler. rewrite OnButtonIsOpen_run. destruct o; exact H.
  - exact H.
Qed.

End HandlerMore.

Section HandlerExtras.

(** X8. However many edits come in a row, none of them calls the memo;
    after the last one the note is modified, holds the last text and has
    its timer running for DEFAULT_TIMER_TIME. When the timer then
    expires and the save call returns, exactly one [save_memo] call has
    been made, the flag is cleared, the timer is off and the text is the
    last one typed. *)
Theorem X8_edits_coalesce_into_one_save
        (ss : list string) (s : string) (b : bool) (w : World) :
  text (run (map TypesText (ss ++ [s])%list) w) = s /\
  is_modified (run (map TypesText (ss ++ [s])%list) w) = true /\
  timer (run (map TypesText (ss ++ [s])%list) w) = Some DEFAULT_TIMER_TIME /\
  memo_calls (run (map TypesText (ss ++ [s])%list) w) = memo_calls w /\
  text (run (map TypesText (ss ++ [s]) ++ [TimerExpires (SaveReturns b)])%list w) = s /\
  is_modified
    (run (map TypesText (ss ++ [s]) ++ [TimerExpires (SaveReturns b)])%list w) = false /\
  timer
    (run (map TypesText (ss ++ [s]) ++ [TimerExpires (SaveReturns b)])%list w) = None /\
  memo_calls
    (run (map TypesText (ss ++ [s]) ++ [TimerExpires (SaveReturns b)])%list w)
  = (memo_calls w ++ [save_memo])%list.
Proof.
  assert (Hc := deliver_keeps_calls_when_typing (ss ++ [s]) w).
  rewrite (run_app (map TypesText (ss ++ [s])) [TimerExpires (SaveReturns b)] w).
  revert Hc. rewrite map_app, run_app. cbn [map].
  generalize (run (map TypesText ss) w). intros w1 Hc.
  change (run [TypesText s] w1) with (deliver w1 (TypesText s)) in *.
  change (run [TimerExpires (SaveReturns b)] (deliver w1 (TypesText s)))
    with (deliver (deliver w1 (TypesText s)) (TimerExpires (SaveReturns b))).
  rewrite deliver_TimerExpires.
  rewrite deliver_TypesText in *. cbn in *.
  rewrite Hc. repeat split.
Qed.

(** X9. Whatever events arrive, in whatever order and with whatever save
    outcomes, a running timer always goes with a set modified flag, once
    that holds at the start (as it does for a new note, whose timer is
    off). *)
Theorem X9_timer_runs_only_when_modified (es : list event) (w : World) :
  armed_is_modified w -> armed_is_modified (run es w).
Proof.
  revert w. induction es as [|e es IH]; intros w H; [exact H |].
  rewrite run_cons. apply IH. now apply armed_after_deliver.
Qed.

Lemma X9_timer_runs_only_when_modified_witness :
  armed_is_modified clean_world /\
  armed_is_modified
    (run [TypesText "a"; TimerExpires SaveRaises; ClicksIsOpen (SaveReturns true);
          TypesText "ab"; ClicksStatus (SaveReturns false); ClicksClose]
         clean_world).
Proof.
  assert (H : armed_is_modified clean_world).
  { intros Ht. exfalso. apply Ht. reflexivity. }
  split; [exact H |].
  exact (X9_timer_runs_only_when_modified _ clean_world H).
Defined.

(** X10. Only typing changes the text of the note: after any run of
    events the text is the one the last edit carried, or the one before
    the run when there was no edit; no save, close, toggle or rename
    touches it. *)
Theorem X10_text_is_the_last_typed (es : list event) (w : World) :
  text (run es w) = last_typed es (text w).
Proof.
  unfold last_typed. revert w. induction es as [|e es IH]; intros w; [reflexivity |].
  rewrite run_cons, IH, text_after_deliver. cbn [fold_left].
  destruct e; reflexivity.
Qed.

(** X11. A second click on the status button, after a first one whose
    save call returned, makes no call and changes nothing. *)
Theorem X11_second_status_click_does_nothing
        (w : World) (b : bool) (o : save_outcome) :
  OnStatus o (snd (OnStatus (SaveReturns b) w))
  = (Ok tt, snd (OnStatus (SaveReturns b) w)).
Proof.
  rewrite (OnStatus_run (SaveReturns b) w).
  destruct (is_modified w) eqn:E.
  - rewrite OnTimerEvent_run. cbn [snd]. now rewrite OnStatus_run.
  - cbn [snd]. now rewrite OnStatus_run, E.
Qed.

(** X12. After an autosave whose save call raised, the note is still
    modified but its timer is off: a timer event is no longer delivered
    to the save, and the next click on the status button makes the save
    call again and clears the flag, with the text as it was. *)
Theorem X12_raised_autosave_is_retried_by_status_click
        (w : World) (o : save_outcome) (b : bool) :
  is_modified w = true ->
  is_modified (snd (OnTimerEvent SaveRaises w)) = true /\
  deliver (snd (OnTimerEvent SaveRaises w)) (TimerExpires o)
  = snd (OnTimerEvent SaveRaises w) /\
  is_modified (snd (OnStatus (SaveReturns b) (snd (OnTimerEvent SaveRaises w)))) = false /\
  text (snd (OnStatus (SaveReturns b) (snd (OnTimerEvent SaveRaises w)))) = text w /\
  memo_calls (snd (OnStatus (SaveReturns b) (snd (OnTimerEvent SaveRaises w))))
  = (memo_calls w ++ [save_memo; save_memo])%list.
Proof.
  intros Hm. rewrite deliver_TimerExpires, OnStatus_run.
  rewrite (OnTimerEvent_run SaveRaises w). cbn [snd].
  rewrite OnTimerEvent_run. cbn. rewrite Hm, <- app_assoc. repeat split.
Qed.

Lemma X12_raised_autosave_witness :
  is_modified dirty_world = true /\
  memo_calls (snd (OnStatus (SaveReturns true)
                     (snd (OnTimerEvent SaveRaises dirty_world))))
  = [save_memo; save_memo].
Proof.
  split; [reflexivity |].
  exact (proj2 (proj2 (proj2 (proj2
    (X12_raised_autosave_is_retried_by_status_click
       dirty_world SaveRaises true eq_refl))))).
Defined.

(** X13. After a toggle whose save call returned, the window is shown
    exactly when the memo is open and the list button reads O or X
    accordingly; a second such toggle brings [is_open] and the window
    back, two [save_memo] calls having been made. *)
Theorem X13_toggle_keeps_view_and_label_in_step (w : World) (b1 b2 : bool) :
  shown (snd (OnButtonIsOpen (SaveReturns b1) w))
  = memo_is_open (snd (OnButtonIsOpen (SaveReturns b1) w)) /\
  button_isopen (snd (OnButtonIsOpen (SaveReturns b1) w))
  = (if memo_is_open (snd (OnButtonIsOpen (SaveReturns b1) w)) then "O" else "X") /\
  memo_is_open (snd (OnButtonIsOpen (SaveReturns b2)
                       (snd (OnButtonIsOpen (SaveReturns b1) w))))
  = memo_is_open w /\
  shown (snd (OnButtonIsOpen (SaveReturns b2)
                (snd (OnButtonIsOpen (SaveReturns b1) w))))
  = memo_is_open w /\
  memo_calls (snd (OnButtonIsOpen (SaveReturns b2)
                     (snd (OnButtonIsOpen (SaveReturns b1) w))))
  = (memo_calls w ++ [save_memo; save_memo])%list.
Proof.
  rewrite (OnButtonIsOpen_run (SaveReturns b2)).
  rewrite (OnButtonIsOpen_run (SaveReturns b1) w). cbn.
  rewrite negb_involutive, <- app_assoc. repeat split.
Qed.

(** X14. When the save call of a toggle raises, [is_open] has already been
    flipped and the window already shown or hidden, but the list button
    keeps its old label. *)
Theorem X14_raised_toggle_leaves_label (w : World) :
  fst (OnButtonIsOpen SaveRaises w) = Raise MemoError /\
  memo_is_open (snd (OnButtonIsOpen SaveRaises w)) = negb (memo_is_open w) /\
  shown (snd (OnButtonIsOpen SaveRaises w)) = negb (memo_is_open w) /\
  button_isopen (snd (OnButtonIsOpen SaveRaises w)) = button_isopen w.
Proof. rewrite OnButtonIsOpen_run. repeat split. Qed.

(** X15. A rename from start to end: outside rename mode the Enter key
    does nothing; a click on the modify button enters rename mode without
    calling the memo; a non-empty title typed then and confirmed (by
    Enter, the save call returning) is handed to [set_title], saved with
    one [save_memo] call, and the node is back outside rename mode with
    the field locked and the button reading M. *)
Theorem X15_rename_cycle
        (w : World) (t : string) (o0 o1 : save_outcome) (b : bool) :
  on_modifying w = false ->
  0 < String.length t ->
  deliver w (EntersTitle o0) = w /\
  memo_calls (deliver w (ClicksModify o1)) = memo_calls w /\
  on_modifying (deliver w (ClicksModify o1)) = true /\
  memo_calls (run [ClicksModify o1; TypesTitle t; EntersTitle (SaveReturns b)] w)
  = (memo_calls w ++ [set_title t; save_memo])%list /\
  on_modifying (run [ClicksModify o1; TypesTitle t; EntersTitle (SaveReturns b)] w)
  = false /\
  text_title (run [ClicksModify o1; TypesTitle t; EntersTitle (SaveReturns b)] w) = t /\
  text_title_editable
    (run [ClicksModify o1; TypesTitle t; EntersTitle (SaveReturns b)] w) = false /\
  button_modify (run [ClicksModify o1; TypesTitle t; EntersTitle (SaveReturns b)] w)
  = "M".
Proof.
  intros Hm Ht. destruct t as [|c t']; [cbn in Ht; lia |].
  set (title := String c t') in *.
  assert (E0 : deliver w (EntersTitle o0) = w).
  { unfold deliver, handler. now rewrite OnButtonModify_run, Hm. }
  assert (E1 : deliver w (ClicksModify o1)
               = with_button_modify "저장"
                   (with_text_title_editable true (with_on_modifying true w))).
  { unfold deliver, handler. now rewrite OnButtonModify_run, Hm. }
  change (run [ClicksModify o1; TypesTitle title; EntersTitle (SaveReturns b)] w)
    with (deliver (deliver (deliver w (ClicksModify o1)) (TypesTitle title))
                  (EntersTitle (SaveReturns b))).
  rewrite E0, E1.
  change (deliver (with_button_modify "저장"
                     (with_text_title_editable true (with_on_modifying true w)))
                  (TypesTitle title))
    with (with_text_title title
            (with_button_modify "저장"
               (with_text_title_editable true (with_on_modifying true w)))).
  unfold deliver, handler. rewrite OnButtonModify_run.
  subst title. cbn. repeat split.
Qed.

Lemma X15_rename_cycle_witness :
  on_modifying clean_world = false /\
  0 < String.length "groceries" /\
  memo_calls (run [ClicksModify SaveRaises; TypesTitle "groceries";
                   EntersTitle (SaveReturns true)] clean_world)
  = [set_title "groceries"; save_memo].
Proof.
  split; [reflexivity |]. split; [cbn; lia |].
  exact (proj1 (proj2 (proj2 (proj2
    (X15_rename_cycle clean_world "groceries" SaveRaises SaveRaises true
       eq_refl ltac:(cbn; lia)))))).
Defined.

(** X16. Whatever events arrive, the title field is editable exactly
    while the node is in rename mode, once that holds at the start (as it
    does for a new node): outside rename mode typed text never reaches
    the title. *)
Theorem X16_title_editable_only_while_renaming (es : list event) (w : World) :
  editable_while_renaming w ->
  editable_while_renaming (run es w) /\
  (on_modifying (run es w) = false ->
   forall s, deliver (run es w) (TypesTitle s) = run es w).
Proof.
  intros H.
  assert (Hr : editable_while_renaming (run es w)).
  { revert w H. induction es as [|e es IH]; intros w H; [exact H |].
    rewrite run_cons. apply IH. now apply editable_after_deliver. }
  split; [exact Hr |].
  intros Hm s. unfold deliver, handler, then_, read.
  unfold editable_while_renaming in Hr. now rewrite Hr, Hm.
Qed.

Lemma X16_title_editable_witness :
  editable_while_renaming clean_world /\
  editable_while_renaming
    (run [ClicksModify SaveRaises; TypesTitle "x"; ClicksModify SaveRaises;
          TypesTitle "xy"; EntersTitle (SaveReturns true); TypesTitle "late"]
         clean_world).
Proof.
  split; [reflexivity |].
  exact (proj1 (X16_title_editable_only_while_renaming _ clean_world eq_refl)).
Defined.

End HandlerExtras.

(** ** The dialogs and the drag panel *)

Section DialogExtras.

Local Open Scope Z_scope.

Lemma select_step_ok (d : SelectNoteDlg) (a : select_action) :
  select_ended d = None -> select_ok d -> select_ok (select_step d a).
Proof.
  intros Hopen [Hsel Hend]. destruct a as [i|s| | ]; unfold select_ok; cbn.
  - destruct ((0 <=? i) && (i <? 3)) eqn:E; cbn.
    + apply andb_true_iff in E as [E1 E2].
      apply Z.leb_le in E1. apply Z.ltb_lt in E2.
      rewrite Hopen. split; [lia | discriminate].
    + now split.
  - rewrite Hopen. split; [exact Hsel | discriminate].
  - unfold OnOk. destruct (Nat.ltb 0 (String.length (select_title d))) eqn:E; cbn.
    + apply Nat.ltb_lt in E. now split.
    + now split.
  - split; [exact Hsel | discriminate].
Qed.

Lemma select_ShowModal_ok (script : list select_action) (d d' : SelectNoteDlg)
      (c : modal_code) :
  select_ok d ->
  select_ShowModal script d = Some (c, d') ->
  select_ok d' /\ select_ended d' = Some c.
Proof.
  revert d. induction script as [|a script IH]; intros d Hd; cbn.
  - destruct (select_ended d) eqn:E; [| discriminate].
    intros [= <- <-]. now split.
  - destruct (select_ended d) eqn:E.
    + intros [= <- <-]. now split.
    + apply IH. now apply select_step_ok.
Qed.

Lemma select_ShowModal_returns (script : list select_action) (d : SelectNoteDlg) :
  In ClicksCancel script -> select_ShowModal script d <> None.
Proof.
  revert d. induction script as [|a script IH]; intros d Hin; [contradiction |].
  cbn. destruct (select_ended d) eqn:E; [discriminate |].
  destruct Hin as [-> | Hin]; [| now apply IH].
  cbn. destruct script; cbn; discriminate.
Qed.

(** X17. A new memo is created only over a non-empty title and with one
    of the three memo types: whenever [OnNew] returns, it has either called
    the controller not at all, or once with [create_new_memo] on a type
    from 1 to 3 and a title of positive length. Called while no dialog is
    stored, it leaves [select_memo] None again; called while one is stored
    (its own dialog still up), it changes nothing. *)
Theorem X17_new_memo_has_title_and_type
        (script : list select_action) (tb tb' : NoteTaskBar) :
  OnNew script tb = Some tb' ->
  (controller_calls tb' = controller_calls tb \/
   exists type title,
     controller_calls tb'
     = (controller_calls tb ++ [create_new_memo type title])%list /\
     (0 < String.length title)%nat /\ 1 <= type <= 3) /\
  match select_memo tb with
  | None => select_memo tb' = None
  | Some _ => tb' = tb
  end.
Proof.
  unfold OnNew. destruct (select_memo tb) as [open|] eqn:Hsel.
  - intros [= <-]. split; [now left | reflexivity].
  - destruct (select_ShowModal script new_SelectNoteDlg) as [[rval d]|] eqn:E;
      [| discriminate].
    intros [= <-]. split; [| reflexivity]. cbn.
    assert (H0 : select_ok new_SelectNoteDlg).
    { split; [cbn; lia | discriminate]. }
    destruct (select_ShowModal_ok _ _ _ _ H0 E) as [[Hty Htitle] Hend].
    destruct rval; [right | now left].
    exists (GetSelectedType d), (select_title d).
    split; [reflexivity |]. split; [now apply Htitle |].
    unfold GetSelectedType.
    destruct (selected_type d =? 0) eqn:E0; [lia |].
    destruct (selected_type d =? 1) eqn:E1; [lia |].
    destruct (selected_type d =? 2) eqn:E2; [lia |].
    apply Z.eqb_neq in E0, E1, E2. lia.
Qed.

(** X17 at a user who clicks OK too early, picks the third type, types a
    title and clicks OK; and at a call made while a dialog is stored. *)
Lemma X17_new_memo_witness :
  OnNew [ClicksOk; PicksRadio 7; PicksRadio 2; TypesNewTitle "trip"; ClicksOk]
        (mkTaskBar None [])
  = Some (mkTaskBar None [create_new_memo 3 "trip"]) /\
  select_memo (mkTaskBar None [create_new_memo 3 "trip"]) = None /\
  OnNew [ClicksCancel] (mkTaskBar (Some new_SelectNoteDlg) [])
  = Some (mkTaskBar (Some new_SelectNoteDlg) []).
Proof.
  split; [reflexivity |]. split; [| reflexivity].
  exact (proj2 (X17_new_memo_has_title_and_type
    [ClicksOk; PicksRadio 7; PicksRadio 2; TypesNewTitle "trip"; ClicksOk]
    (mkTaskBar None []) (mkTaskBar None [create_new_memo 3 "trip"])
    eq_refl)).
Defined.

(** X18. The select dialog can always be left: whenever the user clicks
    Cancel at some point, [OnNew] returns. *)
Theorem X18_cancel_ends_OnNew (script : list select_action) (tb : NoteTaskBar) :
  In ClicksCancel script ->
  exists tb', OnNew script tb = Some tb'.
Proof.
  intros Hin. unfold OnNew.
  destruct (select_memo tb); [now eexists |].
  pose proof (select_ShowModal_returns script new_SelectNoteDlg Hin) as H.
  destruct (select_ShowModal script new_SelectNoteDlg) as [[rval d]|];
    [now eexists | congruence].
Qed.

Lemma X18_cancel_ends_OnNew_witness :
  In ClicksCancel [ClicksOk; ClicksOk; ClicksCancel] /\
  exists tb', OnNew [ClicksOk; ClicksOk; ClicksCancel] (mkTaskBar None []) = Some tb'.
Proof.
  assert (H : In ClicksCancel [ClicksOk; ClicksOk; ClicksCancel])
    by (right; right; left; reflexivity).
  split; [exact H |].
  exact (X18_cancel_ends_OnNew [ClicksOk; ClicksOk; ClicksCancel]
           (mkTaskBar None []) H).
Defined.

Lemma auth_step_ok (url : string) (d : AuthDialog) (a : auth_action) :
  auth_ended d = None -> auth_ok url d -> auth_ok url (auth_step d a).
Proof.
  intros Hopen (Hurl & Hen & Hop & Hall & Hend).
  destruct a as [ | | |b]; unfold auth_ok; cbn.
  - split; [exact Hurl |]. split; [reflexivity |].
    split; [intros _; destruct (opened d); discriminate |].
    split; [| rewrite Hopen; discriminate].
    apply Forall_app. split; [exact Hall |].
    constructor; [now rewrite Hurl | constructor].
  - unfold auth_OnOk. destruct (is_auth_clicked d) eqn:E; cbn; rewrite ?E.
    + split; [exact Hurl |]. split; [exact Hen |].
      split; [intros _; now apply Hop |]. split; [exact Hall | reflexivity].
    + split; [exact Hurl |]. split; [exact Hen |].
      split; [discriminate |]. split; [exact Hall | exact Hend].
  - split; [exact Hurl |]. split; [exact Hen |].
    split; [exact Hop |]. split; [exact Hall | discriminate].
  - split; [exact Hurl |]. split; [exact Hen |].
    split; [exact Hop |]. split; [exact Hall | exact Hend].
Qed.

Lemma auth_ShowModal_ok (url : string) (script : list auth_action)
      (d d' : AuthDialog) (c : modal_code) :
  auth_ok url d ->
  auth_ShowModal script d = Some (c, d') ->
  auth_ok url d' /\ auth_ended d' = Some c.
Proof.
  revert d. induction script as [|a script IH]; intros d Hd; cbn.
  - destruct (auth_ended d) eqn:E; [| discriminate].
    intros [= <- <-]. now split.
  - destruct (auth_ended d) eqn:E.
    + intros [= <- <-]. now split.
    + apply IH. now apply auth_step_ok.
Qed.

(** X19. The authentication dialog ends with OK only after the
    authentication page was opened: whatever the user does, even clicking
    the Next button while it is disabled, when [ShowModal] returns ID_OK
    the browser has been opened at least once, and only ever on
    [auth_url]. *)
Theorem X19_auth_ok_only_after_visit
        (url : string) (script : list auth_action) (d : AuthDialog) :
  auth_ShowModal script (new_AuthDialog url) = Some (ID_OK, d) ->
  opened d <> [] /\ Forall (eq url) (opened d) /\ button_ok_enabled d = true.
Proof.
  intros H.
  assert (H0 : auth_ok url (new_AuthDialog url)).
  { repeat split; try discriminate. constructor. }
  destruct (auth_ShowModal_ok url _ _ _ _ H0 H)
    as ((Hurl & Hen & Hop & Hall & Hend) & Hc).
  specialize (Hend Hc).
  split; [now apply Hop |]. split; [exact Hall |]. now rewrite Hen.
Qed.

Lemma X19_auth_ok_witness :
  auth_ShowModal [ClicksNext; Checks true; ClicksGoAuth; ClicksNext]
                 (new_AuthDialog "http://api/auth")
  = Some (ID_OK, mkAuth "http://api/auth" true true true true
                        ["http://api/auth"] (Some ID_OK)) /\
  ["http://api/auth"] <> ([] : list string).
Proof.
  split; [reflexivity |].
  exact (proj1 (X19_auth_ok_only_after_visit "http://api/auth"
    [ClicksNext; Checks true; ClicksGoAuth; ClicksNext]
    (mkAuth "http://api/auth" true true true true ["http://api/auth"] (Some ID_OK))
    eq_refl)).
Defined.

End DialogExtras.

Section MoveExtras.

Local Open Scope Z_scope.

Lemma mouse_run_app (es1 es2 : list mouse_event) (p : MovePanel) :
  mouse_run (es1 ++ es2)%list p
  = match mouse_run es1 p with
    | Some p' => mouse_run es2 p'
    | None => None
    end.
Proof.
  revert p. induction es1 as [|e es1 IH]; intros p; [reflexivity |].
  cbn. destruct (mouse_step e p); [apply IH | apply IH | reflexivity].
Qed.

Lemma frame_Move_there (fp current : Point) :
  fst fp <> -1 -> snd fp <> -1 -> frame_Move fp current = fp.
Proof.
  intros Hx Hy. unfold frame_Move.
  apply Z.eqb_neq in Hx, Hy. rewrite Hx, Hy. now destruct fp.
Qed.

(** While the button is held, drag motions keep [delta], and the last one
    puts the frame where it says when that is no coordinate of -1. *)
Lemma drag_motions (d : Point) (moves : list Point) (last : Point) (f : Point) :
  fst last - fst d <> -1 -> snd last - snd d <> -1 ->
  mouse_run (map (Motion true) (moves ++ [last])%list) (mkMove true (Some d) f)
  = Some (mkMove true (Some d) (fst last - fst d, snd last - snd d)).
Proof.
  intros Hx Hy. revert f. induction moves as [|m moves IH]; intros f.
  - cbn [List.app map mouse_run mouse_step]. unfold OnMouseMove.
    cbn [andb left_down delta frame_position].
    now rewrite frame_Move_there.
  - cbn [List.app map mouse_run mouse_step]. unfold OnMouseMove.
    cbn [andb left_down delta frame_position]. apply IH.
Qed.

(** With the button up, no motion moves the frame. *)
Lemma idle_motions (flags : list (bool * Point)) (d : option Point) (f : Point) :
  mouse_run (map (fun m => Motion (fst m) (snd m)) flags) (mkMove false d f)
  = Some (mkMove false d f).
Proof.
  induction flags as [|[dragging pos] flags IH]; [reflexivity |].
  cbn [map fst snd mouse_run mouse_step]. unfold OnMouseMove.
  cbn [left_down]. rewrite andb_false_r. exact IH.
Qed.

(** X20. Dragging moves the frame by what the pointer moved: when the
    button goes down at [start] (the capture returning) and the pointer is
    dragged through any positions to [stop], the frame ends at its old
    position plus [stop - start], provided neither coordinate of that
    position is -1 (which [Move] reads as: keep the current one); once
    the button is released (the release returning), further motions leave
    the frame there. *)
Theorem X20_drag_moves_frame_with_pointer
        (p : MovePanel) (start stop : Point) (moves : list Point)
        (after : list (bool * Point)) :
  fst (frame_position p) + (fst stop - fst start) <> -1 ->
  snd (frame_position p) + (snd stop - snd start) <> -1 ->
  mouse_run (LeftDown CaptureReturns start
               :: map (Motion true) (moves ++ [stop]))%list p
  = Some (mkMove true
            (Some (fst start - fst (frame_position p),
                   snd start - snd (frame_position p)))
            (fst (frame_position p) + (fst stop - fst start),
             snd (frame_position p) + (snd stop - snd start))) /\
  mouse_run ((LeftDown CaptureReturns start
                :: map (Motion true) (moves ++ [stop]))
               ++ LeftUp CaptureReturns
               :: map (fun m => Motion (fst m) (snd m)) after)%list p
  = Some (mkMove false
            (Some (fst start - fst (frame_position p),
                   snd start - snd (frame_position p)))
            (fst (frame_position p) + (fst stop - fst start),
             snd (frame_position p) + (snd stop - snd start))).
Proof.
  intros Hx Hy.
  assert (E : mouse_run (LeftDown CaptureReturns start
                           :: map (Motion true) (moves ++ [stop]))%list p
              = Some (mkMove true
                        (Some (fst start - fst (frame_position p),
                               snd start - snd (frame_position p)))
                        (fst (frame_position p) + (fst stop - fst start),
                         snd (frame_position p) + (snd stop - snd start)))).
  { cbn [mouse_run mouse_step]. unfold OnLeftDown. rewrite drag_motions.
    - cbn [fst snd]. do 2 f_equal. f_equal; lia.
    - cbn [fst snd]. lia.
    - cbn [fst snd]. lia. }
  split; [exact E |].
  rewrite mouse_run_app, E. cbn [mouse_run mouse_step]. unfold OnLeftUp.
  cbn [left_down delta frame_position]. apply idle_motions.
Qed.

(** X20 at a frame at (100, 50) grabbed at (110, 60) and dragged over two
    positions to (300, 200). *)
Lemma X20_drag_moves_frame_witness :
  mouse_run [LeftDown CaptureReturns (110, 60); Motion true (150, 90);
             Motion true (-1, 9); Motion true (300, 200)]
            (new_MovePanel (100, 50))
  = Some (mkMove true (Some (10, 10)) (290, 190)).
Proof.
  exact (proj1 (X20_drag_moves_frame_with_pointer
    (new_MovePanel (100, 50)) (110, 60) (300, 200) [(150, 90); (-1, 9)] []
    ltac:(cbn; lia) ltac:(cbn; lia))).
Defined.

(** Every assignment of [delta] comes with the button flag: when the flag
    is set, the attribute exists; no handler breaks that, however its
    capture call ends. *)
Lemma mouse_step_keeps_delta (e : mouse_event) (p : MovePanel) :
  (left_down p = true -> delta p <> None) ->
  exists p', (mouse_step e p = Returned p' \/ mouse_step e p = AssertionFailed p') /\
             (left_down p' = true -> delta p' <> None).
Proof.
  intros H. destruct e as [c pos|c|dragging pos]; cbn.
  - destruct c; cbn.
    + eexists. split; [left; reflexivity |]. cbn. discriminate.
    + exists p. split; [right; reflexivity | exact H].
  - destruct c; cbn.
    + eexists. split; [left; reflexivity |]. cbn. discriminate.
    + exists p. split; [right; reflexivity | exact H].
  - unfold OnMouseMove. destruct (dragging && left_down p) eqn:E.
    + apply andb_true_iff in E as [_ E]. specialize (H E).
      destruct (delta p) as [d|] eqn:Ed; [| congruence].
      eexists. split; [left; reflexivity |]. cbn. discriminate.
    + exists p. split; [left; reflexivity | exact H].
Qed.

(** X21. [OnMouseMove] never reads [self.delta] before [OnLeftDown] has
    assigned it: over any run of mouse events on a new panel, whatever
    the capture and release calls do, no handler stops at an unassigned
    [delta] (the handlers can still stop at a failed capture or release
    assertion). *)
Theorem X21_delta_is_assigned_before_read
        (es : list mouse_event) (origin : Point) :
  exists p, mouse_run es (new_MovePanel origin) = Some p.
Proof.
  assert (H : forall p, (left_down p = true -> delta p <> None) ->
                        exists p', mouse_run es p = Some p').
  { induction es as [|e es IH]; intros p Hp; [now eexists |].
    cbn. destruct (mouse_step_keeps_delta e p Hp) as (p' & [-> | ->] & Hp');
      now apply IH. }
  apply H. cbn. discriminate.
Qed.

End MoveExtras.
